(** * Charm and bundle URLs: the parser of [url.go], embedded and verified

    The development follows the Go source function by function.  Go
    strings are byte sequences and are modelled by [string] (a list of
    8-bit [ascii]); Go's [int] is modelled by [Z] with the 64-bit range
    written out where the source depends on it ([strconv.Atoi]).

    Layout:
    - [strings], [strconv]: the functions of Go's standard library the source calls
      (with [fmt]'s [%d] and [%02x]);
    - [regexp]: regular expressions with a derivative matcher, used for
      [validName];
    - [gourl]: [net/url.Parse], which [ParseURL] starts with;
    - [charm]: the source itself, parameterised by the two external
      vocabularies (supported series, valid user names);
    - the properties of the library functions, then of the source. *)

From Stdlib Require Import Bool Arith ZArith NArith List Ascii String Lia.
Import ListNotations.

Local Open Scope list_scope.
Local Open Scope string_scope.

(* ================================================================== *)
(** * Bytes *)

Definition byte := ascii.
Bind Scope char_scope with byte.

Definition code (b : byte) : N := N_of_ascii b.

(** [lo <= b && b <= hi], on byte values. *)
Definition between (lo hi b : byte) : bool :=
  (code lo <=? code b)%N && (code b <=? code hi)%N.

Definition isDigit (b : byte) : bool := between "0" "9" b.
Definition isLower (b : byte) : bool := between "a" "z" b.
Definition isUpper (b : byte) : bool := between "A" "Z" b.

Definition oneOf (set : string) (b : byte) : bool :=
  existsb (Ascii.eqb b) (list_ascii_of_string set).

(** Every byte of [s] satisfies [p]. *)
Fixpoint allBytes (p : byte -> bool) (s : string) : bool :=
  match s with
  | EmptyString => true
  | String b s' => p b && allBytes p s'
  end.

(* ================================================================== *)
(** * The Go standard library, as far as the source uses it *)

Module strings.

(** [strings.Split(s, sep)] for a one-byte separator: never empty, and
    [Split("", sep)] is the one-element list holding [""]. *)
Fixpoint Split (s : string) (sep : byte) : list string :=
  match s with
  | EmptyString => [EmptyString]
  | String c s' =>
      if Ascii.eqb c sep then EmptyString :: Split s' sep
      else match Split s' sep with
           | [] => [String c EmptyString]
           | p :: ps => String c p :: ps
           end
  end.

Fixpoint Join (parts : list string) (sep : string) : string :=
  match parts with
  | [] => EmptyString
  | [p] => p
  | p :: ps => p ++ sep ++ Join ps sep
  end.

Fixpoint HasPrefix (s prefix : string) : bool :=
  match prefix, s with
  | EmptyString, _ => true
  | String _ _, EmptyString => false
  | String p prefix', String a s' => Ascii.eqb a p && HasPrefix s' prefix'
  end.

Fixpoint TrimLeft (s : string) (c : byte) : string :=
  match s with
  | EmptyString => EmptyString
  | String a s' => if Ascii.eqb a c then TrimLeft s' c else s
  end.

Fixpoint TrimRight (s : string) (c : byte) : string :=
  match s with
  | EmptyString => EmptyString
  | String a s' =>
      match TrimRight s' c with
      | EmptyString => if Ascii.eqb a c then EmptyString else String a EmptyString
      | t => String a t
      end
  end.

(** [strings.Trim(s, cutset)] for a one-byte cutset. *)
Definition Trim (s : string) (c : byte) : string := TrimRight (TrimLeft s c) c.

(** [strings.Cut(s, sep)] for a one-byte separator: the text before and
    after the first [sep], or [(s, "")] when there is none. *)
Fixpoint Cut (s : string) (sep : byte) : string * string :=
  match s with
  | EmptyString => (EmptyString, EmptyString)
  | String a s' =>
      if Ascii.eqb a sep then (EmptyString, s')
      else let '(before, after) := Cut s' sep in (String a before, after)
  end.

Fixpoint ContainsByte (s : string) (c : byte) : bool :=
  match s with
  | EmptyString => false
  | String a s' => Ascii.eqb a c || ContainsByte s' c
  end.

Fixpoint Count (s : string) (c : byte) : nat :=
  match s with
  | EmptyString => O
  | String a s' => (if Ascii.eqb a c then 1 else 0) + Count s' c
  end.

Fixpoint lastByte (s : string) : option byte :=
  match s with
  | EmptyString => None
  | String a EmptyString => Some a
  | String _ s' => lastByte s'
  end.

(** [strings.HasSuffix(s, suffix)] for a one-byte suffix. *)
Definition HasSuffixByte (s : string) (c : byte) : bool :=
  match lastByte s with
  | Some a => Ascii.eqb a c
  | None => false
  end.

(** [s[:len(s)-1]]. *)
Fixpoint dropLast (s : string) : string :=
  match s with
  | EmptyString => EmptyString
  | String _ EmptyString => EmptyString
  | String a s' => String a (dropLast s')
  end.

(** [strings.LastIndex(s, c)] for one byte, as an option. *)
Fixpoint LastIndex (s : string) (c : byte) : option nat :=
  match s with
  | EmptyString => None
  | String a s' =>
      match LastIndex s' c with
      | Some i => Some (S i)
      | None => if Ascii.eqb a c then Some O else None
      end
  end.

Definition lowerByte (b : byte) : byte :=
  if isUpper b then ascii_of_N (code b + 32) else b.

(** [strings.ToLower] on ASCII text. *)
Fixpoint ToLower (s : string) : string :=
  match s with
  | EmptyString => EmptyString
  | String a s' => String (lowerByte a) (ToLower s')
  end.

(** The slices [s[:n]] and [s[n:]], for [n <= len(s)]. *)
Fixpoint take (n : nat) (s : string) : string :=
  match n, s with
  | S n', String a s' => String a (take n' s')
  | _, _ => EmptyString
  end.

Fixpoint drop (n : nat) (s : string) : string :=
  match n, s with
  | S n', String _ s' => drop n' s'
  | _, _ => s
  end.

End strings.

Module strconv.

(** Go's [int] on the 64-bit platforms. *)
Definition intSize : Z := 64.
Definition maxInt : Z := 2 ^ (intSize - 1) - 1.
Definition minInt : Z := - 2 ^ (intSize - 1).

Definition digitVal (c : byte) : option Z :=
  if isDigit c then Some (Z.of_N (code c) - 48)%Z else None.

(** The digit loop of [ParseUint] in base 10, over unbounded integers;
    the range is checked by the caller. *)
Fixpoint parseDigits (s : string) (acc : Z) : option Z :=
  match s with
  | EmptyString => Some acc
  | String c s' =>
      match digitVal c with
      | Some d => parseDigits s' (acc * 10 + d)%Z
      | None => None
      end
  end.

(** [strconv.Atoi]: an optional sign, then one or more decimal digits,
    the value within the range of [int].  [None] stands for a non-nil
    error (syntax or range); the source never reads the integer result
    in that case. *)
Definition Atoi (s : string) : option Z :=
  let '(neg, body) :=
    match s with
    | String "-" t => (true, t)
    | String "+" t => (false, t)
    | _ => (false, s)
    end in
  match body with
  | EmptyString => None
  | _ =>
      match parseDigits body 0 with
      | None => None
      | Some n =>
          let v := if neg then (- n)%Z else n in
          if ((minInt <=? v) && (v <=? maxInt))%Z then Some v else None
      end
  end.

Definition digitChar (d : Z) : byte := ascii_of_N (Z.to_N (48 + d)).

(** The digit loop of [fmt]'s integer formatting: digits are produced
    from the least significant one, in front of what is already there.
    An [int] has at most 20 decimal digits, which bounds the loop. *)
Fixpoint fmtDigits (fuel : nat) (u : Z) (buf : string) : string :=
  match fuel with
  | O => buf
  | S fuel' =>
      if (u <? 10)%Z then String (digitChar u) buf
      else fmtDigits fuel' (u / 10)%Z (String (digitChar (u mod 10)) buf)
  end.

(** [fmt.Sprintf("%d", n)]. *)
Definition Itoa (n : Z) : string :=
  if (n <? 0)%Z then String "-" (fmtDigits 20 (- n)%Z EmptyString)
  else fmtDigits 20 n EmptyString.

Definition hexChar (d : N) : byte :=
  if (d <? 10)%N then ascii_of_N (48 + d) else ascii_of_N (87 + d).

(** [fmt.Sprintf("%02x", b)] for a byte [b]. *)
Definition hex2 (b : byte) : string :=
  String (hexChar (code b / 16)) (String (hexChar (code b mod 16)) EmptyString).

End strconv.

(* ================================================================== *)
(** * Regular expressions

    [regexp.MustCompile("^...$").MatchString(s)] decides whether the
    whole of [s] belongs to the language of the pattern.  Patterns are
    kept as syntax trees, so that [validName] below is the source's
    pattern symbol by symbol, and matched by derivatives. *)

Module regexp.

Inductive re : Type :=
| Void                       (* no string *)
| Eps                        (* the empty string *)
| Class (p : byte -> bool)   (* one byte of a class, such as [a-z] *)
| Seq (r1 r2 : re)
| Alt (r1 r2 : re)
| Star (r : re).

Definition Lit (c : byte) : re := Class (Ascii.eqb c).
Definition Opt (r : re) : re := Alt Eps r.

Fixpoint nullable (r : re) : bool :=
  match r with
  | Void => false
  | Eps => true
  | Class _ => false
  | Seq r1 r2 => nullable r1 && nullable r2
  | Alt r1 r2 => nullable r1 || nullable r2
  | Star _ => true
  end.

Fixpoint deriv (c : byte) (r : re) : re :=
  match r with
  | Void => Void
  | Eps => Void
  | Class p => if p c then Eps else Void
  | Seq r1 r2 =>
      if nullable r1 then Alt (Seq (deriv c r1) r2) (deriv c r2)
      else Seq (deriv c r1) r2
  | Alt r1 r2 => Alt (deriv c r1) (deriv c r2)
  | Star r1 => Seq (deriv c r1) (Star r1)
  end.

Fixpoint MatchString (r : re) (s : string) : bool :=
  match s with
  | EmptyString => nullable r
  | String c s' => MatchString (deriv c r) s'
  end.

(** The language of a pattern. *)
Inductive lang : re -> string -> Prop :=
| lang_eps : lang Eps EmptyString
| lang_class p c : p c = true -> lang (Class p) (String c EmptyString)
| lang_seq r1 r2 s1 s2 : lang r1 s1 -> lang r2 s2 -> lang (Seq r1 r2) (s1 ++ s2)
| lang_alt_l r1 r2 s : lang r1 s -> lang (Alt r1 r2) s
| lang_alt_r r1 r2 s : lang r2 s -> lang (Alt r1 r2) s
| lang_star_nil r : lang (Star r) EmptyString
| lang_star_cons r s1 s2 :
    lang r s1 -> lang (Star r) s2 -> lang (Star r) (s1 ++ s2).

(** Bytes that occur in some string of the pattern, and bytes that
    start one. *)
Fixpoint alphabet (r : re) (c : byte) : bool :=
  match r with
  | Void | Eps => false
  | Class p => p c
  | Seq r1 r2 | Alt r1 r2 => alphabet r1 c || alphabet r2 c
  | Star r1 => alphabet r1 c
  end.

Fixpoint first (r : re) (c : byte) : bool :=
  match r with
  | Void | Eps => false
  | Class p => p c
  | Seq r1 r2 => first r1 c || (nullable r1 && first r2 c)
  | Alt r1 r2 => first r1 c || first r2 c
  | Star r1 => first r1 c
  end.

End regexp.

(* ================================================================== *)
(** * [net/url]

    [ParseURL] starts with [gourl.Parse(url)] and reads the fields
    [Scheme], [Opaque], [Path], [RawQuery], [Fragment] and [User] of the
    result.  [Parse] is transcribed from Go's [net/url]; the record keeps
    the fields that the charm source reads, and [Host]. *)

Module gourl.

Record Userinfo : Type := mkUserinfo {
  username : string;
  password : option string
}.

Record URL : Type := mkURL {
  Scheme : string;
  Opaque : string;
  User : option Userinfo;
  Host : string;
  Path : string;
  RawQuery : string;
  Fragment : string
}.

Definition empty : URL := mkURL "" "" None "" "" "" "".

Definition withPath (u : URL) (p : string) : URL :=
  mkURL (Scheme u) (Opaque u) (User u) (Host u) p (RawQuery u) (Fragment u).

Definition withFragment (u : URL) (f : string) : URL :=
  mkURL (Scheme u) (Opaque u) (User u) (Host u) (Path u) (RawQuery u) f.

Inductive encoding : Type :=
| encodePath | encodeHost | encodeZone | encodeUserPassword | encodeFragment.

Definition isHostMode (m : encoding) : bool :=
  match m with encodeHost | encodeZone => true | _ => false end.

Definition isAlnum (c : byte) : bool := isLower c || isUpper c || isDigit c.

Definition ishex (c : byte) : bool :=
  isDigit c || between "a" "f" c || between "A" "F" c.

Definition unhex (c : byte) : N :=
  if isDigit c then code c - 48
  else if between "a" "f" c then code c - 97 + 10
  else if between "A" "F" c then code c - 65 + 10
  else 0.

(** [shouldEscape(c, encodeHost)]. *)
Definition shouldEscapeHost (c : byte) : bool :=
  negb (isAlnum c || oneOf "!$&'()*+,;=:[]<>" c || Ascii.eqb c (ascii_of_N 34)
        || oneOf "-_.~" c).

(** [unescape(s, mode)]: percent-decoding, with the checks that depend
    on the mode; [None] is an [EscapeError] or [InvalidHostError]. *)
Fixpoint unescape (s : string) (mode : encoding) : option string :=
  match s with
  | EmptyString => Some EmptyString
  | String "%" (String h1 (String h2 rest)) =>
      let v := (unhex h1 * 16 + unhex h2)%N in
      let is25 := Ascii.eqb h1 "2" && Ascii.eqb h2 "5" in
      if negb (ishex h1 && ishex h2) then None
      else if match mode with
              | encodeHost => (unhex h1 <? 8)%N && negb is25
              | encodeZone =>
                  negb is25 && negb (v =? 32)%N && shouldEscapeHost (ascii_of_N v)
              | _ => false
              end
      then None
      else option_map (String (ascii_of_N v)) (unescape rest mode)
  | String "%" _ => None
  | String c rest =>
      if isHostMode mode && (code c <? 128)%N && shouldEscapeHost c then None
      else option_map (String c) (unescape rest mode)
  end.

(** [getScheme(rawURL)]: [None] is the error "missing protocol scheme". *)
Fixpoint getSchemeAt (i : nat) (rawURL s : string) : option (string * string) :=
  match s with
  | EmptyString => Some (EmptyString, rawURL)
  | String c s' =>
      if isLower c || isUpper c then getSchemeAt (S i) rawURL s'
      else if isDigit c || oneOf "+-." c then
        match i with
        | O => Some (EmptyString, rawURL)
        | _ => getSchemeAt (S i) rawURL s'
        end
      else if Ascii.eqb c ":" then
        match i with
        | O => None
        | _ => Some (strings.take i rawURL, s')
        end
      else Some (EmptyString, rawURL)
  end.

Definition getScheme (rawURL : string) : option (string * string) :=
  getSchemeAt O rawURL rawURL.

Definition isCTL (b : byte) : bool := (code b <? 32)%N || (code b =? 127)%N.

Fixpoint stringContainsCTLByte (s : string) : bool :=
  match s with
  | EmptyString => false
  | String b s' => isCTL b || stringContainsCTLByte s'
  end.

Definition validUserinfo (s : string) : bool :=
  allBytes (fun r => isAlnum r || oneOf "-._:~!$&'()*+,;=%@" r) s.

Definition validOptionalPort (port : string) : bool :=
  match port with
  | EmptyString => true
  | String c digits => Ascii.eqb c ":" && allBytes isDigit digits
  end.

Definition parseHost (host : string) : option string :=
  if strings.HasPrefix host "[" then
    match strings.LastIndex host "]" with
    | None => None
    | Some i =>
        if negb (validOptionalPort (strings.drop (S i) host)) then None
        else
          match String.index 0 "%25" (strings.take i host) with
          | Some zone =>
              match unescape (strings.take zone host) encodeHost,
                    unescape (strings.drop zone (strings.take i host)) encodeZone,
                    unescape (strings.drop i host) encodeHost with
              | Some host1, Some host2, Some host3 => Some (host1 ++ host2 ++ host3)
              | _, _, _ => None
              end
          | None => unescape host encodeHost
          end
    end
  else
    match strings.LastIndex host ":" with
    | Some i =>
        if negb (validOptionalPort (strings.drop i host)) then None
        else unescape host encodeHost
    | None => unescape host encodeHost
    end.

Definition parseAuthority (authority : string) : option (option Userinfo * string) :=
  match strings.LastIndex authority "@" with
  | None =>
      match parseHost authority with
      | None => None
      | Some host => Some (None, host)
      end
  | Some i =>
      match parseHost (strings.drop (S i) authority) with
      | None => None
      | Some host =>
          let userinfo := strings.take i authority in
          if negb (validUserinfo userinfo) then None
          else if negb (strings.ContainsByte userinfo ":") then
            match unescape userinfo encodeUserPassword with
            | None => None
            | Some name => Some (Some (mkUserinfo name None), host)
            end
          else
            let '(name, pass) := strings.Cut userinfo ":" in
            match unescape name encodeUserPassword,
                  unescape pass encodeUserPassword with
            | Some name', Some pass' =>
                Some (Some (mkUserinfo name' (Some pass')), host)
            | _, _ => None
            end
      end
  end.

(** [parse(rawURL, false)]. *)
Definition parse (rawURL : string) : option URL :=
  if stringContainsCTLByte rawURL then None
  else if String.eqb rawURL "*" then Some (withPath empty "*")
  else
    match getScheme rawURL with
    | None => None
    | Some (scheme0, rest0) =>
        let scheme := strings.ToLower scheme0 in
        let '(rest, rawQuery) :=
          if strings.HasSuffixByte rest0 "?" && Nat.eqb (strings.Count rest0 "?") 1
          then (strings.dropLast rest0, EmptyString)
          else strings.Cut rest0 "?" in
        let rooted := strings.HasPrefix rest "/" in
        if negb rooted && negb (String.eqb scheme "") then
          (* rootless paths are opaque *)
          Some (mkURL scheme rest None "" "" rawQuery "")
        else if negb rooted && strings.ContainsByte (fst (strings.Cut rest "/")) ":" then
          None
        else if (negb (String.eqb scheme "") || negb (strings.HasPrefix rest "///"))
                && strings.HasPrefix rest "//" then
          let authority0 := strings.drop 2 rest in
          let '(authority, rest') :=
            let a := fst (strings.Cut authority0 "/") in
            (a, strings.drop (String.length a) authority0) in
          match parseAuthority authority with
          | None => None
          | Some (user, host) =>
              match unescape rest' encodePath with
              | None => None
              | Some path => Some (mkURL scheme "" user host path rawQuery "")
              end
          end
        else
          match unescape rest encodePath with
          | None => None
          | Some path => Some (mkURL scheme "" None "" path rawQuery "")
          end
    end.

(** [url.Parse(rawURL)]; [None] stands for a non-nil error. *)
Definition Parse (rawURL : string) : option URL :=
  let '(u, frag) := strings.Cut rawURL "#" in
  match parse u with
  | None => None
  | Some url =>
      if String.eqb frag "" then Some url
      else match unescape frag encodeFragment with
           | None => None
           | Some f => Some (withFragment url f)
           end
  end.

End gourl.

(* ================================================================== *)
(** * The charm URL ([url.go]) *)

Module charm.

(** [type URL struct]. *)
Record URL : Type := mkURL {
  Schema : string;   (* "cs" or "local" *)
  User : string;     (* "joe" *)
  Name : string;     (* "wordpress" *)
  Revision : Z;      (* -1 if unset, N otherwise *)
  Series : string    (* "precise" or "" if unset *)
}.

(** What an error message quotes with [%q]: the string handed to
    [ParseURL] (the compact grammar and [ParseURL] itself), or the
    [*gourl.URL] being parsed (the slash and web grammars). *)
Inductive quoted : Type :=
| Raw (originalURL : string)
| Parsed (url : gourl.URL).

(** The errors of the source, one constructor per message. *)
Inductive error : Type :=
| MalformedInput (url : string)
    (* cannot parse charm or bundle URL: %q *)
| UnrecognizedParts (url : quoted)
    (* charm or bundle URL %q has unrecognized parts *)
| InvalidSchema (url : quoted)
    (* charm or bundle URL has invalid schema: %q *)
| InvalidForm (url : quoted)
    (* charm or bundle URL has invalid form: %q *)
| LocalURLWithUser (url : string)
    (* local charm or bundle URL with user name: %q *)
| InvalidSeries (url : quoted)
    (* charm or bundle URL has invalid series: %q *)
| NoNameInURL (url : string)
    (* URL without charm or bundle name: %q *)
| InvalidUserName (url : quoted)
    (* charm or bundle URL has invalid user name: %q *)
| InvalidName (url : quoted)
    (* URL has invalid charm or bundle name: %q *)
| MalformedRevision (revision : string) (url : gourl.URL)
    (* charm or bundle URL has malformed revision: %q in %q *)
| MalformedUserPath (url : gourl.URL)
    (* charm or bundle URL %q malformed, expected "/u/<user>/<name>" *)
| UnresolvedSeries (src : string)
    (* cannot infer charm or bundle URL for %q: ... series is not resolved *).

(** What a call does: return a value with a nil error, return a non-nil
    error, or panic. *)
Inductive result (A : Type) : Type :=
| Ok (a : A)
| Err (e : error)
| Panic.

Arguments Ok {A} a.
Arguments Err {A} e.
Arguments Panic {A}.

(** [validName], the pattern (written here with spaces around the group)
    [^[a-z][a-z0-9]* ( -[a-z0-9]*[a-z][a-z0-9]* )* $]. *)
Definition lowerOrDigit : regexp.re :=
  regexp.Class (fun b => isLower b || isDigit b).

Definition validName : regexp.re :=
  regexp.Seq (regexp.Class isLower)
    (regexp.Seq (regexp.Star lowerOrDigit)
       (regexp.Star
          (regexp.Seq (regexp.Lit "-")
             (regexp.Seq (regexp.Star lowerOrDigit)
                (regexp.Seq (regexp.Class isLower) (regexp.Star lowerOrDigit)))))).

Definition IsValidName (name : string) : bool :=
  regexp.MatchString validName name.

(** [parts[i]] for an [int] index; the source reads it only under a
    guard that keeps [i] in range. *)
Fixpoint part (parts : list string) (i : Z) : string :=
  match parts with
  | [] => EmptyString
  | p :: parts' => if (i =? 0)%Z then p else part parts' (i - 1)%Z
  end.

Definition len {A : Type} (l : list A) : Z := Z.of_nat (List.length l).

Definition WithRevision (url : URL) (revision : Z) : URL :=
  mkURL (Schema url) (User url) (Name url) revision (Series url).

Definition withSchema (url : URL) (schema : string) : URL :=
  mkURL schema (User url) (Name url) (Revision url) (Series url).

Definition withSeries (url : URL) (series : string) : URL :=
  mkURL (Schema url) (User url) (Name url) (Revision url) series.

(** The loop of [parseV1URL] that separates [<name>-<revision>],
    [for i := len(r.Name) - 1; i > 0; i--].  The result is the pair
    [(r.Name, r.Revision)] after the loop, or a panic. *)
Fixpoint splitRevision (name : string) (i : nat) : result (string * Z) :=
  match i with
  | O => Ok (name, (-1)%Z)
  | S i' =>
      match String.get i name with
      | None => Ok (name, (-1)%Z)
      | Some c =>
          if isDigit c then splitRevision name i'
          else if Ascii.eqb c "-" && negb (Nat.eqb i (String.length name - 1)) then
            match strconv.Atoi (strings.drop (i + 1) name) with
            | None => Panic   (* We just checked it was right. *)
            | Some revision => Ok (strings.take i name, revision)
            end
          else Ok (name, (-1)%Z)
      end
  end.

(** [u.String()]: the newer [cs:user/name/series/rev] form. *)
Definition String_ (u : URL) : string :=
  let parts := if String.eqb (User u) "" then [] else [User u] in
  let parts := (parts ++ [Name u])%list in
  let parts := if String.eqb (Series u) "" then parts else (parts ++ [Series u])%list in
  let parts := if (0 <=? Revision u)%Z
               then (parts ++ [strconv.Itoa (Revision u)])%list else parts in
  Schema u ++ ":" ++ strings.Join parts "/".

(** [u.Path()]: the old-style [~user/series/name-rev] form. *)
Definition Path (u : URL) : string :=
  let parts := if String.eqb (User u) "" then [] else ["~" ++ User u] in
  let parts := if String.eqb (Series u) "" then parts else (parts ++ [Series u])%list in
  let parts := if (0 <=? Revision u)%Z
               then (parts ++ [(Name u ++ "-" ++ strconv.Itoa (Revision u))%string])%list
               else (parts ++ [Name u])%list in
  strings.Join parts "/".

Definition isSafe (b : byte) : bool :=
  isLower b || isUpper b || isDigit b || Ascii.eqb b "." || Ascii.eqb b "-".

(** [Quote]: the loop appends to [safe], byte by byte. *)
Fixpoint Quote (unsafe : string) : string :=
  match unsafe with
  | EmptyString => EmptyString
  | String b rest =>
      if isSafe b then String b (Quote rest)
      else ("_" ++ strconv.hex2 b ++ "_") ++ Quote rest
  end.

Definition schemaOK (schema : string) : bool :=
  String.eqb schema "" || String.eqb schema "cs" || String.eqb schema "local".

Section Charm.

(** The two vocabularies that come from other packages:
    [series.SupportedSeries()] and [names.IsValidUser]. *)
Variable SupportedSeries : list string.
Variable IsValidUser : string -> bool.

(** [validSeries = set.NewStrings(series.SupportedSeries()...)], and
    [init] adds ["bundle"]. *)
Definition validSeries : list string := "bundle" :: SupportedSeries.

Definition IsValidSeries (series : string) : bool :=
  existsb (String.eqb series) validSeries.

(** [parseV1URL]: [cs:~username/series/name-revision]. *)
Definition parseV1URL (url : gourl.URL) (originalURL : string) : result URL :=
  let schema := gourl.Scheme url in
  if negb (schemaOK schema) then Err (InvalidSchema (Raw originalURL)) else
  let parts := strings.Split (gourl.Path url) "/" in
  if ((len parts <? 1) || (4 <? len parts))%Z then Err (InvalidForm (Raw originalURL)) else
  (* ~<username> *)
  let tilde := strings.HasPrefix (part parts 0) "~" in
  if tilde && String.eqb schema "local" then Err (LocalURLWithUser originalURL) else
  let user := if tilde then strings.drop 1 (part parts 0) else EmptyString in
  let parts := if tilde then tl parts else parts in
  if (2 <? len parts)%Z then Err (InvalidForm (Raw originalURL)) else
  (* <series> *)
  let two := (len parts =? 2)%Z in
  let series := if two then part parts 0 else EmptyString in
  let parts := if two then tl parts else parts in
  if two && negb (IsValidSeries series) then Err (InvalidSeries (Raw originalURL)) else
  if (len parts <? 1)%Z then Err (NoNameInURL originalURL) else
  (* <name>[-<revision>] *)
  match splitRevision (part parts 0) (String.length (part parts 0) - 1) with
  | Panic => Panic
  | Err e => Err e
  | Ok (name, revision) =>
      if negb (String.eqb user "") && negb (IsValidUser user)
      then Err (InvalidUserName (Raw originalURL)) else
      if negb (IsValidName name) then Err (InvalidName (Raw originalURL)) else
      Ok (mkURL schema user name revision series)
  end.

Definition convertRevision (revision : string) (url : gourl.URL) : result Z :=
  match strconv.Atoi revision with
  | None => Err (MalformedRevision revision url)
  | Some n => Ok n
  end.

(** [parseV3URL]: [cs:user/name/series/revision], read from the end. *)
Definition parseV3URL (url : gourl.URL) : result URL :=
  let invalidName := InvalidName (Parsed url) in
  let unrecognizedParts := UnrecognizedParts (Parsed url) in
  let schema := gourl.Scheme url in
  if negb (schemaOK schema) then Err (InvalidSchema (Parsed url)) else
  let parts := strings.Split (gourl.Path url) "/" in
  if (len parts <? 1)%Z then Err invalidName else
  if (4 <? len parts)%Z then Err unrecognizedParts else
  let last := (len parts - 1)%Z in
  let '(last, revision) :=
    match strconv.Atoi (part parts last) with
    | Some n => ((last - 1)%Z, n)
    | None => (last, (-1)%Z)
    end in
  let '(last, series) :=
    if (0 <=? last)%Z && IsValidSeries (part parts last)
    then ((last - 1)%Z, part parts last) else (last, EmptyString) in
  (* Name is required *)
  if (last <? 0)%Z || negb (IsValidName (part parts last)) then Err invalidName else
  let name := part parts last in
  let last := (last - 1)%Z in
  if (0 <=? last)%Z && negb (IsValidUser (part parts last))
  then Err (InvalidUserName (Parsed url)) else
  let '(last, user) :=
    if (0 <=? last)%Z then ((last - 1)%Z, part parts last) else (last, EmptyString) in
  (* Make sure we've used all the components. *)
  if negb (last =? -1)%Z then Err unrecognizedParts else
  Ok (mkURL schema user name revision series).

(** [parseV2URL]: the path of an [http] or [https] URL. *)
Definition parseV2URL (url : gourl.URL) : result URL :=
  let parts := strings.Split (strings.Trim (gourl.Path url) "/") "/" in
  let u := String.eqb (part parts 0) "u" in
  if u && (len parts <? 3)%Z then Err (MalformedUserPath url) else
  let user := if u then part parts 1 else EmptyString in
  let parts := if u then skipn 2 parts else parts in
  let name := part parts 0 in
  let parts := tl parts in
  let tail : result (Z * string) :=
    match parts with
    | [] => Ok ((-1)%Z, EmptyString)
    | p0 :: parts' =>
        match strconv.Atoi p0 with
        | Some revision => Ok (revision, EmptyString)
        | None =>
            if negb (IsValidSeries p0) then Err (InvalidSeries (Parsed url)) else
            match parts' with
            | [p1] =>
                match strconv.Atoi p1 with
                | Some revision => Ok (revision, p0)
                | None => Err (MalformedRevision p1 url)
                end
            | [] => Ok ((-1)%Z, p0)
            | _ => Err (InvalidForm (Parsed url))
            end
        end
    end in
  match tail with
  | Panic => Panic
  | Err e => Err e
  | Ok (revision, series) =>
      if negb (String.eqb user "") && negb (IsValidUser user)
      then Err (InvalidUserName (Parsed url)) else
      if negb (IsValidName name) then Err (InvalidName (Parsed url)) else
      Ok (mkURL "cs" user name revision series)
  end.

Definition parseNonWebURL (url : gourl.URL) (originalURL : string) : result URL :=
  let parts := strings.Split (gourl.Path url) "/" in
  (* Special-case to handle ambiguity between series/name (V1) and
     user/name (V3). *)
  if IsValidSeries (part parts 0) then parseV1URL url originalURL else
  match parseV3URL url with
  | Ok r => Ok r
  | _ => parseV1URL url originalURL
  end.

(** The three-way switch of [ParseURL] on the shape of the URL. *)
Definition dispatch (u : gourl.URL) (url : string) : result URL :=
  if negb (String.eqb (gourl.Opaque u) "") then
    (* Shortcut old-style URLs. *)
    parseNonWebURL (gourl.withPath u (gourl.Opaque u)) url
  else if String.eqb (gourl.Scheme u) "http" || String.eqb (gourl.Scheme u) "https" then
    (* Shortcut web URLs. *)
    parseV2URL u
  else parseNonWebURL u url.

Definition ParseURL (url : string) : result URL :=
  match gourl.Parse url with
  | None => Err (MalformedInput url)
  | Some u =>
      if negb (String.eqb (gourl.RawQuery u) "")
         || negb (String.eqb (gourl.Fragment u) "")
         || match gourl.User u with Some _ => true | None => false end
      then Err (UnrecognizedParts (Raw url))
      else
        match dispatch u url with
        | Panic => Panic
        | Err e => Err e
        | Ok curl =>
            Ok (if String.eqb (Schema curl) "" then withSchema curl "cs" else curl)
        end
  end.

(** [MustParseURL] panics where [ParseURL] returns an error. *)
Definition MustParseURL (url : string) : result URL :=
  match ParseURL url with
  | Ok u => Ok u
  | _ => Panic
  end.

Definition InferURL (src defaultSeries : string) : result URL :=
  match ParseURL src with
  | Panic => Panic
  | Err e => Err e
  | Ok u =>
      if String.eqb (Series u) "" then
        if String.eqb defaultSeries "" then Err (UnresolvedSeries src)
        else Ok (withSeries u defaultSeries)
      else Ok u
  end.

End Charm.

End charm.

Import charm.

(* ================================================================== *)
(** * The charm store client, [repo.go]

    Of [store.Get], the steps between the call of [s.info] and the call
    of [verify]: the revision that the store reports replaces an unset
    revision and has to equal a set one, and the URL that results names
    the file of the archive in the cache. *)

Module store.

(** The name that [Get] gives the file in [s.cachePath], for the
    revision [rev] that [s.info(curl)] returned: the last element of
    [path].  [None] is the error "bad revision info". *)
Definition Get_path (curl : URL) (rev : Z) : option string :=
  let curl' :=
    if (Revision curl =? -1)%Z then Some (WithRevision curl rev)
    else if negb (Revision curl =? rev)%Z then None
    else Some curl in
  match curl' with
  | None => None
  | Some curl => Some (Quote (String_ curl) ++ ".charm")
  end.

End store.

(** ** Vocabulary of the statements *)

(** A lower-case hexadecimal digit. *)
Definition lowerHex (c : byte) : bool := isDigit c || between "a" "f" c.

(** A byte that [Quote] can produce. *)
Definition quotedByte (b : byte) : bool := isSafe b || Ascii.eqb b "_".

(** The names of [validName], read from left to right; [seen] tells
    whether the segment after the last hyphen holds a letter so far. *)
Fixpoint nameRest (seen : bool) (s : string) : bool :=
  match s with
  | EmptyString => seen
  | String c s' =>
      if Ascii.eqb c "-" then seen && nameRest false s'
      else if isLower c then nameRest true s'
      else if isDigit c then nameRest seen s'
      else false
  end.

Definition nameShape (s : string) : bool :=
  match s with
  | EmptyString => false
  | String c s' => isLower c && nameRest true s'
  end.

(** The two states of the left-to-right reading, as patterns: after a
    segment that holds a letter, and after a hyphen. *)
Definition groups : regexp.re :=
  regexp.Star
    (regexp.Seq (regexp.Lit "-")
       (regexp.Seq (regexp.Star lowerOrDigit)
          (regexp.Seq (regexp.Class isLower) (regexp.Star lowerOrDigit)))).

Definition seenLetter : regexp.re := regexp.Seq (regexp.Star lowerOrDigit) groups.

Definition needLetter : regexp.re :=
  regexp.Seq
    (regexp.Seq (regexp.Star lowerOrDigit)
       (regexp.Seq (regexp.Class isLower) (regexp.Star lowerOrDigit)))
    groups.

(** The name segment of the compact grammar: the last segment of the
    path. *)
Definition nameSegment (url : gourl.URL) : string :=
  last (strings.Split (gourl.Path url) "/") EmptyString.

(** A byte that is neither a separator of the URL syntax ([/], [#],
    [?]) nor a control character, and a string of such bytes. *)
Definition plainByte (b : byte) : bool := negb (oneOf "/#?" b || gourl.isCTL b).

Definition plain (s : string) : bool := allBytes plainByte s.

(** The same, with [/] allowed: what a rendered path is made of. *)
Definition cleanByte (b : byte) : bool := negb (oneOf "#?" b || gourl.isCTL b).

(** ** Vocabularies for the examples

    The Ubuntu series that [url_test.go] uses as valid ones, and the user
    names of [gopkg.in/juju/names.v2], the pattern
    "^[a-zA-Z0-9][a-zA-Z0-9.+-]*[a-zA-Z0-9](@[a-zA-Z0-9][a-zA-Z0-9.+-]*[a-zA-Z0-9])?$". *)

Definition ubuntuSeries : list string :=
  ["precise"; "quantal"; "raring"; "saucy"; "trusty"; "utopic"; "vivid"; "wily"; "xenial"].

Definition userNameSnippet : regexp.re :=
  let alnum := regexp.Class gourl.isAlnum in
  regexp.Seq alnum
    (regexp.Seq (regexp.Star (regexp.Class (fun b => gourl.isAlnum b || oneOf ".+-" b)))
       alnum).

Definition namesIsValidUser (id : string) : bool :=
  regexp.MatchString
    (regexp.Seq userNameSnippet
       (regexp.Opt (regexp.Seq (regexp.Lit "@") userNameSnippet)))
    id.

(** The fields of a URL have been validated: this is what every parser
    has checked when it returns a URL. *)
Definition validated (SupportedSeries : list string) (IsValidUser : string -> bool)
    (r : URL) : Prop :=
  schemaOK (Schema r) = true
  /\ (User r = "" \/ IsValidUser (User r) = true)
  /\ IsValidName (Name r) = true
  /\ (Series r = "" \/ IsValidSeries SupportedSeries (Series r) = true)
  /\ (strconv.minInt <= Revision r <= strconv.maxInt)%Z.




(* ================================================================== *)
(** * Properties of the library functions *)

Module regexp_facts.
Import regexp.

Lemma nullable_lang (r : re) : nullable r = true -> lang r EmptyString.
Proof.
  induction r; simpl; intros H; try discriminate.
  - constructor.
  - apply andb_true_iff in H as [H1 H2].
    change EmptyString with (EmptyString ++ EmptyString).
    constructor; auto.
  - apply orb_true_iff in H as [H | H]; [apply lang_alt_l | apply lang_alt_r]; auto.
  - constructor.
Qed.

Lemma deriv_lang (r : re) :
  forall c s, lang (deriv c r) s -> lang r (String c s).
Proof.
  induction r; simpl; intros c s H.
  - inversion H.
  - inversion H.
  - destruct (p c) eqn:E; inversion H; subst. now constructor.
  - assert (Hseq : forall t, lang (Seq (deriv c r1) r2) t -> lang (Seq r1 r2) (String c t)).
    { intros t Ht. inversion Ht; subst.
      change (String c (s1 ++ s2)) with (String c s1 ++ s2). constructor; auto. }
    destruct (nullable r1) eqn:N.
    + inversion H; subst; auto.
      change (String c s) with (EmptyString ++ String c s).
      constructor; auto using nullable_lang.
    + auto.
  - inversion H; subst; [apply lang_alt_l | apply lang_alt_r]; auto.
  - inversion H; subst.
    change (String c (s1 ++ s2)) with (String c s1 ++ s2). constructor; auto.
Qed.

(** The matcher accepts only strings of the pattern's language. *)
Lemma MatchString_lang (s : string) :
  forall r, MatchString r s = true -> lang r s.
Proof.
  induction s as [|c s IH]; simpl; intros r H.
  - now apply nullable_lang.
  - now apply deriv_lang, IH.
Qed.

Lemma lang_nil_nullable (r : re) (s : string) :
  lang r s -> s = EmptyString -> nullable r = true.
Proof.
  induction 1; simpl; intros E; try discriminate; auto.
  - destruct s1; try discriminate. simpl in E. rewrite IHlang1, IHlang2; auto.
  - rewrite IHlang; auto.
  - rewrite IHlang; auto using orb_true_r.
Qed.

Lemma lang_deriv (r : re) (s : string) :
  lang r s -> forall c t, s = String c t -> lang (deriv c r) t.
Proof.
  induction 1; simpl; intros a t E; try discriminate.
  - inversion E; subst. rewrite H. constructor.
  - destruct s1 as [|b s1]; simpl in E.
    + rewrite (lang_nil_nullable _ _ H eq_refl). apply lang_alt_r. eauto.
    + inversion E; subst.
      assert (L : lang (Seq (deriv a r1) r2) (s1 ++ s2)) by (constructor; eauto).
      destruct (nullable r1); [apply lang_alt_l|]; exact L.
  - apply lang_alt_l. eauto.
  - apply lang_alt_r. eauto.
  - destruct s1 as [|b s1]; simpl in E.
    + eauto.
    + inversion E; subst. constructor; eauto.
Qed.

(** The matcher decides the language of the pattern. *)
Lemma MatchString_iff (s : string) :
  forall r, MatchString r s = true <-> lang r s.
Proof.
  intros r. split; [apply MatchString_lang|].
  revert r. induction s as [|c s IH]; simpl; intros r H.
  - eapply lang_nil_nullable; eauto.
  - apply IH. eapply lang_deriv; eauto.
Qed.

Lemma lang_first (r : re) (s : string) :
  lang r s -> forall c t, s = String c t -> first r c = true.
Proof.
  induction 1; simpl; intros a t E; try discriminate.
  - now inversion E; subst.
  - destruct s1 as [|b s1].
    + simpl in E. rewrite (lang_nil_nullable _ _ H eq_refl).
      rewrite (IHlang2 _ _ E). apply orb_true_r.
    + simpl in E. inversion E; subst. now rewrite (IHlang1 _ _ eq_refl).
  - now rewrite (IHlang _ _ E).
  - rewrite (IHlang _ _ E). apply orb_true_r.
  - destruct s1 as [|b s1].
    + simpl in E. eauto.
    + simpl in E. inversion E; subst. eauto.
Qed.

Lemma lang_alphabet (r : re) (s : string) :
  lang r s -> allBytes (alphabet r) s = true.
Proof.
  assert (Happ : forall p s1 s2, allBytes p s1 = true ->
                   allBytes p s2 = true -> allBytes p (s1 ++ s2) = true).
  { intros p s1 s2 H1 H2. induction s1 as [|b s1 IH]; simpl in *; auto.
    apply andb_true_iff in H1 as [Hb H1]. rewrite Hb; simpl; auto. }
  assert (Hmono : forall (p q : byte -> bool) t, (forall b, p b = true -> q b = true) ->
                   allBytes p t = true -> allBytes q t = true).
  { intros p q t Hpq. induction t as [|b t IH]; simpl; auto.
    intros H. apply andb_true_iff in H as [Hb Ht]. rewrite (Hpq _ Hb); simpl; auto. }
  induction 1; simpl; auto.
  - now rewrite H.
  - apply Happ; [eapply Hmono; [|exact IHlang1] | eapply Hmono; [|exact IHlang2]];
      intros b Hb; rewrite Hb; auto using orb_true_r.
  - eapply Hmono; [|exact IHlang]. intros b Hb; now rewrite Hb.
  - eapply Hmono; [|exact IHlang]. intros b Hb; rewrite Hb; auto using orb_true_r.
Qed.

End regexp_facts.

Module strings_facts.
Import strings.

Lemma allBytes_app (p : byte -> bool) (s1 s2 : string) :
  allBytes p (s1 ++ s2) = allBytes p s1 && allBytes p s2.
Proof.
  induction s1 as [|b s1 IH]; simpl; auto.
  rewrite IH. now rewrite andb_assoc.
Qed.

Lemma allBytes_impl (p q : byte -> bool) (s : string) :
  (forall b, p b = true -> q b = true) ->
  allBytes p s = true -> allBytes q s = true.
Proof.
  intros Hpq. induction s as [|b s IH]; simpl; auto.
  intros H. apply andb_true_iff in H as [Hb Hs]. rewrite (Hpq _ Hb); simpl; auto.
Qed.

Lemma Split_nonempty (s : string) (sep : byte) : Split s sep <> [].
Proof.
  destruct s as [|c s]; simpl; try discriminate.
  destruct (Ascii.eqb c sep); try discriminate.
  destruct (Split s sep); discriminate.
Qed.

(** A string without the separator is one segment. *)
Lemma Split_one (s : string) (sep : byte) :
  ContainsByte s sep = false -> Split s sep = [s].
Proof.
  induction s as [|c s IH]; simpl; auto.
  intros H. apply orb_false_iff in H as [Hc Hs].
  rewrite Hc, (IH Hs). reflexivity.
Qed.

Lemma Split_app (p rest : string) (sep : byte) :
  ContainsByte p sep = false ->
  Split (p ++ String sep rest) sep = p :: Split rest sep.
Proof.
  induction p as [|c p IH]; simpl.
  - intros _. now rewrite Ascii.eqb_refl.
  - intros H. apply orb_false_iff in H as [Hc Hp].
    rewrite Hc, (IH Hp). reflexivity.
Qed.

(** Splitting undoes joining, when no part holds the separator. *)
Lemma Split_Join (parts : list string) (sep : byte) :
  parts <> [] ->
  Forall (fun p => ContainsByte p sep = false) parts ->
  Split (Join parts (String sep EmptyString)) sep = parts.
Proof.
  induction parts as [|p ps IH]; [congruence|].
  intros _ H. inversion H as [|? ? Hp Hps]; subst.
  destruct ps as [|q ps].
  - simpl. now apply Split_one.
  - change (Join (p :: q :: ps) (String sep EmptyString))
      with (p ++ String sep (Join (q :: ps) (String sep EmptyString))).
    rewrite Split_app by assumption.
    now rewrite IH.
Qed.

Lemma Cut_none (s : string) (sep : byte) :
  ContainsByte s sep = false -> Cut s sep = (s, EmptyString).
Proof.
  induction s as [|c s IH]; simpl; auto.
  intros H. apply orb_false_iff in H as [Hc Hs].
  now rewrite Hc, (IH Hs).
Qed.

Lemma lastByte_none (s : string) (c : byte) :
  ContainsByte s c = false -> lastByte s <> Some c.
Proof.
  induction s as [|a s IH]; simpl; [discriminate|].
  intros H. apply orb_false_iff in H as [Ha Hs].
  destruct s as [|b s].
  - intros E. inversion E; subst. now rewrite Ascii.eqb_refl in Ha.
  - now apply IH.
Qed.

Lemma take_drop (n : nat) (s : string) : take n s ++ drop n s = s.
Proof.
  revert s. induction n as [|n IH]; intros [|a s]; simpl; auto.
  now rewrite IH.
Qed.

(** [s[i]] splits [s] into [s[:i]], the byte, and [s[i+1:]]. *)
Lemma get_take_drop (i : nat) (s : string) (c : byte) :
  String.get i s = Some c -> s = take i s ++ String c (drop (i + 1) s).
Proof.
  revert s. induction i as [|i IH]; intros [|a s]; simpl; try discriminate.
  - intros E. now inversion E.
  - intros E. now rewrite <- (IH _ E).
Qed.

Lemma get_drop (i : nat) (s : string) (c : byte) :
  String.get i s = Some c -> drop i s = String c (drop (i + 1) s).
Proof.
  revert s. induction i as [|i IH]; intros [|a s]; simpl; try discriminate.
  - intros E. now inversion E.
  - intros E. now apply IH.
Qed.

Lemma drop_all (s : string) : drop (String.length s) s = EmptyString.
Proof. induction s; simpl; auto. Qed.

Lemma take_length (i : nat) (s : string) :
  i <= String.length s -> String.length (take i s) = i.
Proof.
  revert s. induction i as [|i IH]; intros [|a s]; simpl; intros H; try lia.
  rewrite IH; lia.
Qed.

Lemma get_lt (i : nat) (s : string) (c : byte) :
  String.get i s = Some c -> i < String.length s.
Proof.
  revert s. induction i as [|i IH]; intros [|a s]; simpl; try discriminate; intros E.
  - lia.
  - apply IH in E. lia.
Qed.

Lemma drop_length (n : nat) (s : string) :
  String.length (drop n s) = String.length s - n.
Proof.
  revert s. induction n as [|n IH]; intros [|a s]; simpl; auto.
Qed.

Lemma get_app (a b : string) (i : nat) :
  String.get (String.length a + i) (a ++ b) = String.get i b.
Proof. induction a as [|x a IH]; simpl; auto. Qed.

Lemma drop_app (a b : string) : drop (String.length a) (a ++ b) = b.
Proof. induction a as [|x a IH]; simpl; auto. Qed.

Lemma take_app (a b : string) : take (String.length a) (a ++ b) = a.
Proof. induction a as [|x a IH]; simpl; auto. now rewrite IH. Qed.

Lemma length_app (a b : string) :
  String.length (a ++ b) = String.length a + String.length b.
Proof. induction a as [|x a IH]; simpl; auto. Qed.

End strings_facts.

Module strconv_facts.
Import strconv strings_facts.

(** Case analysis on the 256 bytes. *)
Ltac bytes c := destruct c as [[] [] [] [] [] [] [] []].

Lemma digitVal_range (c : byte) (d : Z) :
  digitVal c = Some d -> (0 <= d <= 9)%Z /\ isDigit c = true.
Proof.
  unfold digitVal. destruct (isDigit c) eqn:E; [|discriminate].
  intros H; inversion H; subst; clear H. split; auto.
  bytes c; vm_compute in E; try discriminate; vm_compute; split; discriminate.
Qed.

Lemma digitVal_digitChar (d : Z) :
  (0 <= d <= 9)%Z -> digitVal (digitChar d) = Some d.
Proof.
  intros H.
  assert (E : (d = 0 \/ d = 1 \/ d = 2 \/ d = 3 \/ d = 4 \/ d = 5 \/ d = 6
               \/ d = 7 \/ d = 8 \/ d = 9)%Z) by lia.
  repeat (destruct E as [E | E]; [subst; reflexivity|]). subst; reflexivity.
Qed.

Lemma isDigit_digitChar (d : Z) :
  (0 <= d <= 9)%Z -> isDigit (digitChar d) = true.
Proof.
  intros H. pose proof (digitVal_digitChar d H) as E.
  now apply digitVal_range in E.
Qed.

Lemma parseDigits_app (s t : string) :
  forall acc, parseDigits (s ++ t) acc =
              match parseDigits s acc with
              | Some v => parseDigits t v
              | None => None
              end.
Proof.
  induction s as [|c s IH]; simpl; intros acc; auto.
  destruct (digitVal c); auto.
Qed.

Lemma parseDigits_ge (s : string) :
  forall acc n, parseDigits s acc = Some n -> (0 <= acc)%Z -> (0 <= n)%Z.
Proof.
  induction s as [|c s IH]; simpl; intros acc n H Hacc.
  - inversion H; subst; auto.
  - destruct (digitVal c) as [d|] eqn:E; [|discriminate].
    apply digitVal_range in E as [E _]. apply (IH _ _ H). lia.
Qed.

Lemma parseDigits_allDigits (s : string) :
  forall acc n, parseDigits s acc = Some n -> allBytes isDigit s = true.
Proof.
  induction s as [|c s IH]; simpl; intros acc n H; auto.
  destruct (digitVal c) as [d|] eqn:E; [|discriminate].
  apply digitVal_range in E as [_ E]. rewrite E. simpl. eauto.
Qed.

Lemma allDigits_parseDigits (s : string) :
  allBytes isDigit s = true -> forall acc, exists n, parseDigits s acc = Some n.
Proof.
  induction s as [|c s IH]; simpl; intros H acc; eauto.
  apply andb_true_iff in H as [Hc Hs].
  unfold digitVal. rewrite Hc. apply IH, Hs.
Qed.

(** The value [Atoi] returns is an [int]. *)
Lemma Atoi_range (s : string) (n : Z) :
  Atoi s = Some n -> (minInt <= n <= maxInt)%Z.
Proof.
  unfold Atoi.
  destruct (match s with
            | String "-" t => (true, t)
            | String "+" t => (false, t)
            | _ => (false, s)
            end) as [neg body].
  destruct body as [|c body]; [discriminate|].
  destruct (parseDigits (String c body) 0) as [m|]; [|discriminate].
  destruct ((minInt <=? (if neg then (- m)%Z else m))%Z
            && ((if neg then (- m)%Z else m) <=? maxInt)%Z) eqn:E; [|discriminate].
  intros H; inversion H; subst. apply andb_true_iff in E as [E1 E2].
  apply Z.leb_le in E1, E2. auto.
Qed.

(** Without a sign, [Atoi] is the digit loop followed by the range check. *)
Lemma Atoi_unsigned (c : byte) (s : string) :
  isDigit c = true ->
  Atoi (String c s) =
  match parseDigits (String c s) 0 with
  | Some n => if ((minInt <=? n) && (n <=? maxInt))%Z then Some n else None
  | None => None
  end.
Proof.
  intros H. bytes c; vm_compute in H; try discriminate; reflexivity.
Qed.

(** A string of digits never gives a negative integer. *)
Lemma Atoi_digits_nonneg (s : string) (n : Z) :
  allBytes isDigit s = true -> Atoi s = Some n -> (0 <= n)%Z.
Proof.
  destruct s as [|c s]; [discriminate|].
  intros H. pose proof H as H'. simpl in H'. apply andb_true_iff in H' as [Hc _].
  rewrite (Atoi_unsigned _ _ Hc).
  destruct (parseDigits (String c s) 0) as [m|] eqn:E; [|discriminate].
  destruct ((minInt <=? m)%Z && (m <=? maxInt)%Z); [|discriminate].
  intros E'; inversion E'; subst. eapply parseDigits_ge; eauto. lia.
Qed.

(** What [Atoi] accepts starts with a digit or a sign. *)
Lemma Atoi_first (c : byte) (s : string) (n : Z) :
  Atoi (String c s) = Some n ->
  isDigit c = true \/ c = "-"%char \/ c = "+"%char.
Proof.
  destruct (isDigit c) eqn:D; auto. intros H. right.
  destruct (Ascii.eqb c "-") eqn:E1; [apply Ascii.eqb_eq in E1; auto|].
  destruct (Ascii.eqb c "+") eqn:E2; [apply Ascii.eqb_eq in E2; auto|].
  exfalso. unfold Atoi in H.
  assert (Hb : (match String c s with
                | String "-" t => (true, t)
                | String "+" t => (false, t)
                | _ => (false, String c s)
                end) = (false, String c s)).
  { bytes c; vm_compute in E1, E2; try discriminate; reflexivity. }
  rewrite Hb in H. simpl in H. unfold digitVal in H. rewrite D in H. discriminate.
Qed.

Lemma append_assoc (a b c : string) : (a ++ b) ++ c = a ++ (b ++ c).
Proof. induction a as [|x a IH]; simpl; auto. now rewrite IH. Qed.

Lemma fmtDigits_buf (fuel : nat) :
  forall u buf, fmtDigits fuel u buf = fmtDigits fuel u EmptyString ++ buf.
Proof.
  induction fuel as [|fuel IH]; simpl; intros u buf; auto.
  destruct (u <? 10)%Z; auto.
  rewrite IH. rewrite (IH _ (String _ EmptyString)).
  now rewrite append_assoc.
Qed.

Lemma fmtDigits_parse (fuel : nat) :
  forall u, (0 <= u < 10 ^ Z.of_nat fuel)%Z ->
            parseDigits (fmtDigits fuel u EmptyString) 0 = Some u.
Proof.
  induction fuel as [|fuel IH]; intros u Hu.
  - simpl in *. f_equal. lia.
  - cbn [fmtDigits]. destruct (u <? 10)%Z eqn:E.
    + apply Z.ltb_lt in E. cbn [parseDigits].
      rewrite digitVal_digitChar by lia. reflexivity.
    + apply Z.ltb_ge in E.
      rewrite fmtDigits_buf, parseDigits_app.
      rewrite IH.
      * cbn [parseDigits]. rewrite digitVal_digitChar.
        -- f_equal. pose proof (Z.div_mod u 10). lia.
        -- pose proof (Z.mod_pos_bound u 10). lia.
      * rewrite Nat2Z.inj_succ, Z.pow_succ_r in Hu by lia.
        split; [apply Z.div_pos; lia|].
        apply Z.div_lt_upper_bound; lia.
Qed.

Lemma fmtDigits_digits (fuel : nat) :
  forall u, (0 <= u)%Z -> allBytes isDigit (fmtDigits fuel u EmptyString) = true.
Proof.
  induction fuel as [|fuel IH]; intros u Hu; [reflexivity|].
  cbn [fmtDigits]. destruct (u <? 10)%Z eqn:E.
  - apply Z.ltb_lt in E. simpl. rewrite isDigit_digitChar by lia. reflexivity.
  - rewrite fmtDigits_buf, allBytes_app, IH by (apply Z.div_pos; lia).
    simpl. rewrite isDigit_digitChar; [reflexivity|].
    pose proof (Z.mod_pos_bound u 10). lia.
Qed.

Lemma fmtDigits_first (fuel : nat) (u : Z) :
  exists c t, fmtDigits (S fuel) u EmptyString = String c t.
Proof.
  cbn [fmtDigits]. destruct (u <? 10)%Z; [eauto|].
  rewrite fmtDigits_buf.
  destruct (fmtDigits fuel (u / 10) EmptyString); simpl; eauto.
Qed.

Lemma Itoa_digits (n : Z) :
  (0 <= n)%Z ->
  allBytes isDigit (Itoa n) = true /\ exists c t, Itoa n = String c t.
Proof.
  intros H. unfold Itoa.
  destruct (n <? 0)%Z eqn:E; [apply Z.ltb_lt in E; lia|].
  split; [now apply fmtDigits_digits | apply fmtDigits_first].
Qed.

(** [Atoi] reads back what [%d] prints, for the non-negative [int]s. *)
Lemma Atoi_Itoa (n : Z) :
  (0 <= n <= maxInt)%Z -> Atoi (Itoa n) = Some n.
Proof.
  intros H. destruct (Itoa_digits n) as [Hd [c [t E]]]; [lia|].
  assert (P : parseDigits (Itoa n) 0 = Some n).
  { unfold Itoa. destruct (n <? 0)%Z eqn:E'; [apply Z.ltb_lt in E'; lia|].
    apply fmtDigits_parse. split; [lia|].
    apply Z.le_lt_trans with maxInt; [lia|]. reflexivity. }
  rewrite E in *. simpl in Hd. apply andb_true_iff in Hd as [Hc _].
  rewrite (Atoi_unsigned _ _ Hc), P.
  assert (R : ((minInt <=? n) && (n <=? maxInt))%Z = true).
  { apply andb_true_iff; split; apply Z.leb_le; [|lia].
    apply Z.le_trans with 0%Z; [|lia]. discriminate. }
  now rewrite R.
Qed.

End strconv_facts.


(* ================================================================== *)
(** * Quote *)

Import strings_facts strconv_facts.

Lemma hex2_value (b : byte) :
  exists h1 h2, strconv.hex2 b = String h1 (String h2 EmptyString)
                /\ lowerHex h1 = true /\ lowerHex h2 = true
                /\ (gourl.unhex h1 * 16 + gourl.unhex h2)%N = code b.
Proof.
  eexists _, _. split; [reflexivity|].
  bytes b; vm_compute; auto.
Qed.

Lemma hex2_inj (a b : byte) : strconv.hex2 a = strconv.hex2 b -> a = b.
Proof.
  intros H.
  assert (U : forall c, ascii_of_N (match strconv.hex2 c with
                                    | String h1 (String h2 _) =>
                                        gourl.unhex h1 * 16 + gourl.unhex h2
                                    | _ => 0
                                    end) = c).
  { intros c. bytes c; reflexivity. }
  rewrite <- (U a), <- (U b), H. reflexivity.
Qed.

Lemma isSafe_bytes (b : byte) :
  isSafe b = true <->
  (65 <= code b <= 90 \/ 97 <= code b <= 122 \/ 48 <= code b <= 57
   \/ b = "."%char \/ b = "-"%char)%N.
Proof.
  unfold isSafe, isLower, isUpper, isDigit, between.
  change (code "a") with 97%N. change (code "z") with 122%N.
  change (code "A") with 65%N. change (code "Z") with 90%N.
  change (code "0") with 48%N. change (code "9") with 57%N.
  rewrite !orb_true_iff, !andb_true_iff, !N.leb_le, !Ascii.eqb_eq. tauto.
Qed.

Lemma Quote_safe (s : string) : allBytes isSafe s = true -> Quote s = s.
Proof.
  induction s as [|b s IH]; simpl; auto.
  intros H. apply andb_true_iff in H as [Hb Hs]. now rewrite Hb, IH.
Qed.

Lemma Quote_inj (s1 : string) : forall s2, Quote s1 = Quote s2 -> s1 = s2.
Proof.
  induction s1 as [|a s1 IH]; intros [|b s2]; simpl; auto.
  - destruct (isSafe b); discriminate.
  - destruct (isSafe a); discriminate.
  - destruct (isSafe a) eqn:Sa, (isSafe b) eqn:Sb; simpl; intros H.
    + inversion H; subst. f_equal; auto.
    + inversion H; subst. discriminate.
    + inversion H; subst. discriminate.
    + inversion H as [[H1 H2 H3]]. f_equal; auto.
      apply hex2_inj. unfold strconv.hex2. congruence.
Qed.

(** C9. [Quote] leaves the bytes A-Z, a-z, 0-9, [.] and [-] as they are
    (so a string of such bytes is returned unchanged), replaces every
    other byte by an underscore, its two lower-case hexadecimal digits
    and an underscore ([Quote("a/b c")] is ["a_2f_b_20_c"]), and is
    injective. *)
Theorem Quote_spec :
  (forall b, isSafe b = true <->
     (65 <= code b <= 90 \/ 97 <= code b <= 122 \/ 48 <= code b <= 57
      \/ b = "."%char \/ b = "-"%char)%N)
  /\ (forall b rest, isSafe b = true -> Quote (String b rest) = String b (Quote rest))
  /\ (forall b rest, isSafe b = false ->
        Quote (String b rest) = "_" ++ strconv.hex2 b ++ "_" ++ Quote rest)
  /\ (forall b, exists h1 h2,
        strconv.hex2 b = String h1 (String h2 EmptyString)
        /\ lowerHex h1 = true /\ lowerHex h2 = true
        /\ (gourl.unhex h1 * 16 + gourl.unhex h2)%N = code b)
  /\ (forall s, allBytes isSafe s = true -> Quote s = s)
  /\ Quote "/" = "_2f_"
  /\ Quote "a/b c" = "a_2f_b_20_c"
  /\ (forall s1 s2, Quote s1 = Quote s2 -> s1 = s2).
Proof.
  repeat split.
  - apply isSafe_bytes.
  - apply isSafe_bytes.
  - intros b rest H. simpl. now rewrite H.
  - intros b rest H. simpl. now rewrite H.
  - apply hex2_value.
  - apply Quote_safe.
  - intros s1 s2. apply Quote_inj.
Qed.

Lemma Quote_spec_witness :
  allBytes isSafe "cs-0.A" = true /\ Quote "cs-0.A" = "cs-0.A".
Proof.
  split; [reflexivity|].
  apply (proj1 (proj2 (proj2 (proj2 (proj2 Quote_spec))))). reflexivity.
Defined.

(* ================================================================== *)
(** * The parsers *)

(** Evaluation of a parser on a given input: the calls with closed
    arguments are computed, the two vocabularies stay symbolic. *)
Ltac closed_calls :=
  repeat match goal with
    | |- context [gourl.Parse ?s] =>
        let v := eval vm_compute in (gourl.Parse s) in
        progress change (gourl.Parse s) with v
    | |- context [strconv.Atoi ?s] =>
        let v := eval vm_compute in (strconv.Atoi s) in
        progress change (strconv.Atoi s) with v
    | |- context [IsValidName ?s] =>
        let v := eval vm_compute in (IsValidName s) in
        progress change (IsValidName s) with v
    | |- context [splitRevision ?s ?i] =>
        let v := eval vm_compute in (splitRevision s i) in
        progress change (splitRevision s i) with v
    end.

Ltac known_calls :=
  repeat match goal with
    | H : ?x = true |- context [?x] => rewrite H
    | H : ?x = false |- context [?x] => rewrite H
    end.

Ltac run :=
  unfold InferURL, MustParseURL, ParseURL, dispatch, parseNonWebURL,
    parseV3URL, parseV2URL, parseV1URL;
  repeat (first
    [ progress closed_calls
    | progress known_calls
    | progress cbn -[IsValidSeries IsValidName strconv.Atoi splitRevision gourl.Parse] ]).

Section Parsers.

Variable SupportedSeries : list string.
Variable IsValidUser : string -> bool.

Local Abbreviation IsValidSeries := (IsValidSeries SupportedSeries).
Local Abbreviation parseV1URL := (parseV1URL SupportedSeries IsValidUser).
Local Abbreviation parseV2URL := (parseV2URL SupportedSeries IsValidUser).
Local Abbreviation parseV3URL := (parseV3URL SupportedSeries IsValidUser).
Local Abbreviation parseNonWebURL := (parseNonWebURL SupportedSeries IsValidUser).
Local Abbreviation dispatch := (dispatch SupportedSeries IsValidUser).
Local Abbreviation ParseURL := (ParseURL SupportedSeries IsValidUser).
Local Abbreviation InferURL := (InferURL SupportedSeries IsValidUser).

(** A bare name parses the same way whatever the vocabularies are. *)
Lemma ParseURL_foo : ParseURL "foo" = Ok (mkURL "cs" "" "foo" (-1) "").
Proof.
  run. destruct (IsValidSeries "foo"); run; reflexivity.
Qed.

(** C8. [InferURL] parses [src]; it returns the error of [ParseURL] if
    there is one, the parsed URL as it is when its series is set, the
    parsed URL with [defaultSeries] as its series when the series is
    unset and [defaultSeries] is not empty, and the unresolved-series
    error when both are empty.  [InferURL("foo", "trusty")] has series
    ["trusty"] and [InferURL("foo", "")] fails. *)
Theorem InferURL_spec (src defaultSeries : string) :
  (forall e, ParseURL src = Err e -> InferURL src defaultSeries = Err e)
  /\ (ParseURL src = Panic -> InferURL src defaultSeries = Panic)
  /\ (forall u, ParseURL src = Ok u -> Series u <> "" ->
        InferURL src defaultSeries = Ok u)
  /\ (forall u, ParseURL src = Ok u -> Series u = "" -> defaultSeries <> "" ->
        InferURL src defaultSeries = Ok (withSeries u defaultSeries)
        /\ Series (withSeries u defaultSeries) = defaultSeries)
  /\ (forall u, ParseURL src = Ok u -> Series u = "" -> defaultSeries = "" ->
        InferURL src defaultSeries = Err (UnresolvedSeries src))
  /\ InferURL "foo" "trusty" = Ok (mkURL "cs" "" "foo" (-1) "trusty")
  /\ InferURL "foo" "" = Err (UnresolvedSeries "foo").
Proof.
  unfold charm.InferURL. repeat apply conj.
  - intros e H. now rewrite H.
  - intros H. now rewrite H.
  - intros u H Hs. rewrite H. apply String.eqb_neq in Hs. now rewrite Hs.
  - intros u H Hs Hd. rewrite H, Hs. apply String.eqb_neq in Hd. now rewrite Hd.
  - intros u H Hs Hd. rewrite H, Hs, Hd. reflexivity.
  - now rewrite ParseURL_foo.
  - now rewrite ParseURL_foo.
Qed.

(** C10. The revision suffix that [parseV1URL] hands to [strconv.Atoi]
    is a non-empty string of digits, but [Atoi] still fails when the
    number does not fit an [int]: [ParseURL] panics on
    ["cs:foo-99999999999999999999"], whatever the vocabularies are. *)
Theorem ParseURL_panics :
  strconv.Atoi "99999999999999999999" = None
  /\ splitRevision "foo-99999999999999999999" 23 = Panic
  /\ ParseURL "cs:foo-99999999999999999999" = Panic.
Proof.
  repeat apply conj; try reflexivity.
  run. destruct (IsValidSeries "foo-99999999999999999999"); run; reflexivity.
Qed.

(** ** The compact grammar *)

(** The loop of [parseV1URL], by induction on its counter: with digits
    only to the right of position [i], the loop leaves the name alone, or
    cuts it at a hyphen that has a non-empty left part and a non-empty
    run of digits as its right part; it panics when that run of digits
    does not convert. *)
Lemma splitRevision_spec (name : string) :
  forall i,
    i <= String.length name - 1 ->
    allBytes isDigit (strings.drop (i + 1) name) = true ->
    match splitRevision name i with
    | Ok (n, r) =>
        (n = name /\ r = (-1)%Z)
        \/ exists digits,
            name = n ++ "-" ++ digits /\ n <> "" /\ digits <> ""
            /\ allBytes isDigit digits = true
            /\ strconv.Atoi digits = Some r /\ (0 <= r)%Z
    | Panic =>
        exists n digits,
          name = n ++ "-" ++ digits /\ n <> "" /\ digits <> ""
          /\ allBytes isDigit digits = true /\ strconv.Atoi digits = None
    | Err _ => False
    end.
Proof.
  induction i as [|i IH]; intros Hi Hd; [simpl; auto|].
  cbn [splitRevision].
  destruct (String.get (S i) name) as [c|] eqn:G; [|auto].
  pose proof (get_lt _ _ _ G) as Hlt.
  pose proof (get_drop _ _ _ G) as Hdrop.
  pose proof (get_take_drop _ _ _ G) as Hname.
  destruct (isDigit c) eqn:D.
  - apply IH; [lia|]. replace (i + 1) with (S i) by lia.
    rewrite Hdrop. simpl. now rewrite D.
  - destruct (Ascii.eqb c "-" && negb (Nat.eqb (S i) (String.length name - 1))) eqn:E;
      [|auto].
    apply andb_true_iff in E as [Ec En]. apply Ascii.eqb_eq in Ec. subst c.
    apply negb_true_iff, Nat.eqb_neq in En.
    assert (Hn : strings.take (S i) name <> "").
    { intros E. apply (f_equal String.length) in E.
      rewrite take_length in E by lia. discriminate. }
    assert (Hs : strings.drop (S i + 1) name <> "").
    { intros E. apply (f_equal String.length) in E.
      rewrite drop_length in E. simpl in E. lia. }
    destruct (strconv.Atoi (strings.drop (S i + 1) name)) as [r|] eqn:A.
    + right. exists (strings.drop (S i + 1) name). repeat apply conj; auto.
      eapply Atoi_digits_nonneg; eauto.
    + exists (strings.take (S i) name), (strings.drop (S i + 1) name).
      repeat apply conj; auto.
Qed.

Lemma splitRevision_start (name : string) :
  match splitRevision name (String.length name - 1) with
  | Ok (n, r) =>
      (n = name /\ r = (-1)%Z)
      \/ exists digits,
          name = n ++ "-" ++ digits /\ n <> "" /\ digits <> ""
          /\ allBytes isDigit digits = true
          /\ strconv.Atoi digits = Some r /\ (0 <= r)%Z
  | Panic =>
      exists n digits,
        name = n ++ "-" ++ digits /\ n <> "" /\ digits <> ""
        /\ allBytes isDigit digits = true /\ strconv.Atoi digits = None
  | Err _ => False
  end.
Proof.
  apply splitRevision_spec; [lia|].
  destruct name as [|a name]; [reflexivity|].
  replace (String.length (String a name) - 1 + 1) with (String.length (String a name))
    by (simpl; lia).
  now rewrite drop_all.
Qed.

(** The loop panics only on a run of digits that is too large for an
    [int]. *)
Lemma splitRevision_panic (name : string) :
  splitRevision name (String.length name - 1) = Panic ->
  exists n digits v,
    name = n ++ "-" ++ digits /\ digits <> ""
    /\ allBytes isDigit digits = true
    /\ strconv.parseDigits digits 0 = Some v /\ (strconv.maxInt < v)%Z.
Proof.
  intros H. pose proof (splitRevision_start name) as Hspec. rewrite H in Hspec.
  destruct Hspec as (n & digits & Hname & _ & Hne & Hd & Ha).
  destruct (allDigits_parseDigits _ Hd 0%Z) as [v Hv].
  exists n, digits, v. repeat apply conj; auto.
  destruct digits as [|c t]; [congruence|].
  pose proof Hd as Hc. simpl in Hc. apply andb_true_iff in Hc as [Hc _].
  rewrite (Atoi_unsigned _ _ Hc), Hv in Ha.
  pose proof (parseDigits_ge _ _ _ Hv (Z.le_refl 0)) as Hpos.
  destruct ((strconv.minInt <=? v)%Z && (v <=? strconv.maxInt)%Z) eqn:E; [discriminate|].
  apply andb_false_iff in E as [E | E].
  - apply Z.leb_gt in E. assert (strconv.minInt <= 0)%Z by discriminate. lia.
  - now apply Z.leb_gt in E.
Qed.

Lemma get_digit (digits : string) :
  allBytes isDigit digits = true ->
  forall k, k < String.length digits ->
            exists c, String.get k digits = Some c /\ isDigit c = true.
Proof.
  induction digits as [|d digits IH]; simpl; intros H k Hk; [lia|].
  apply andb_true_iff in H as [Hd H].
  destruct k as [|k]; [eauto|]. apply IH; auto. lia.
Qed.

(** Conversely, the loop does cut a segment of that shape. *)
Lemma splitRevision_cut (n digits : string) (rev : Z) :
  n <> "" -> digits <> "" ->
  allBytes isDigit digits = true ->
  strconv.Atoi digits = Some rev ->
  let name := n ++ "-" ++ digits in
  splitRevision name (String.length name - 1) = Ok (n, rev).
Proof.
  intros Hn Hd Hdigits Hatoi name.
  assert (Hlen : String.length name = String.length n + S (String.length digits)).
  { unfold name. now rewrite length_app. }
  assert (Hscan : forall k, k <= String.length digits ->
                    splitRevision name (String.length n + k)
                    = splitRevision name (String.length n)).
  { induction k as [|k IH]; intros Hk; [now rewrite Nat.add_0_r|].
    rewrite Nat.add_succ_r. cbn [splitRevision].
    destruct (get_digit _ Hdigits k) as (c & Hc & Dc); [lia|].
    replace (S (String.length n + k)) with (String.length n + S k) by lia.
    unfold name at 1. rewrite get_app. simpl. rewrite Hc, Dc.
    apply IH. lia. }
  replace (String.length name - 1) with (String.length n + String.length digits) by lia.
  rewrite Hscan by lia.
  destruct n as [|a n]; [congruence|].
  destruct digits as [|d digits]; [congruence|].
  set (m := String a n) in *.
  change (String.length m) with (S (String.length n)) at 1.
  cbn [splitRevision].
  replace (S (String.length n)) with (String.length m + 0) by (simpl; lia).
  unfold name at 1. rewrite get_app. cbn [String.append String.get].
  change (isDigit "-") with false. cbv iota. rewrite Ascii.eqb_refl.
  assert (E : Nat.eqb (String.length m + 0) (String.length name - 1) = false).
  { apply Nat.eqb_neq. rewrite Hlen. simpl. lia. }
  rewrite E. cbn [negb andb].
  replace (String.length m + 0 + 1) with (String.length (m ++ "-")) by
    (rewrite length_app; simpl; lia).
  replace (String.length m + 0) with (String.length m) by lia.
  assert (N : name = (m ++ "-") ++ String d digits).
  { unfold name. now rewrite append_assoc. }
  rewrite N at 1. rewrite drop_app, Hatoi.
  unfold name. now rewrite take_app.
Qed.

(** What [parseV1URL] has checked when it returns a URL. *)
Lemma parseV1URL_ok (url : gourl.URL) (originalURL : string) (r : URL) :
  parseV1URL url originalURL = Ok r ->
  Schema r = gourl.Scheme url
  /\ schemaOK (Schema r) = true
  /\ (User r = "" \/ IsValidUser (User r) = true)
  /\ IsValidName (Name r) = true
  /\ (Series r = "" \/ IsValidSeries (Series r) = true)
  /\ (Schema r = "local" -> User r = "")
  /\ match splitRevision (nameSegment url) (String.length (nameSegment url) - 1) with
     | Ok (n, rev) => Name r = n /\ Revision r = rev
     | _ => False
     end.
Proof.
  unfold charm.parseV1URL, nameSegment. cbv zeta.
  destruct (schemaOK (gourl.Scheme url)) eqn:Hschema; [|discriminate].
  cbn [negb].
  pose proof (Split_nonempty (gourl.Path url) "/") as Hne.
  destruct (strings.Split (gourl.Path url) "/") as [|p0 [|p1 [|p2 [|p3 [|p4 parts]]]]];
    [congruence| | | | |];
    try (match goal with
         | |- context [(4 <? len (?a :: ?b :: ?c :: ?d :: ?e :: ?l))%Z] =>
             assert (L : (4 <? len (a :: b :: c :: d :: e :: l))%Z = true)
               by (apply Z.ltb_lt; unfold len; cbn [List.length]; lia);
             rewrite L, orb_true_r; discriminate
         end);
    (destruct (strings.HasPrefix (part (p0 :: _) 0) "~") eqn:Htilde;
     [destruct (String.eqb (gourl.Scheme url) "local") eqn:Hlocal|]);
    cbn -[IsValidName splitRevision strings.drop charm.IsValidSeries];
    try discriminate; intros H;
    repeat match type of H with
      | context [charm.IsValidSeries ?l ?p] =>
          destruct (charm.IsValidSeries l p) eqn:?; cbn [negb] in H; try discriminate
      | context [splitRevision ?p ?i] =>
          destruct (splitRevision p i) as [[? ?]|?|] eqn:?; try discriminate
      | context [negb (String.eqb ?u "") && negb (IsValidUser ?u)] =>
          destruct (String.eqb u "") eqn:?; cbn [negb andb] in H;
          [|destruct (IsValidUser u) eqn:?; cbn [negb andb] in H; try discriminate]
      | context [IsValidName ?n] =>
          destruct (IsValidName n) eqn:?; cbn [negb] in H; try discriminate
      end;
    inversion H; subst; clear H; cbn;
    repeat apply conj; auto;
    try (intros E; rewrite E in *; discriminate);
    try (left; now apply String.eqb_eq).
Qed.

(** The name and the revision that [parseV1URL] returns, against the
    name segment of the path. *)
Lemma parseV1URL_split (url : gourl.URL) (originalURL : string) (r : URL) :
  parseV1URL url originalURL = Ok r ->
  (Name r = nameSegment url /\ Revision r = (-1)%Z)
  \/ exists digits,
      nameSegment url = Name r ++ "-" ++ digits
      /\ Name r <> "" /\ digits <> ""
      /\ allBytes isDigit digits = true
      /\ strconv.Atoi digits = Some (Revision r) /\ (0 <= Revision r)%Z.
Proof.
  intros H. apply parseV1URL_ok in H as (_ & _ & _ & _ & _ & _ & Hsplit).
  pose proof (splitRevision_start (nameSegment url)) as Hspec.
  destruct (splitRevision (nameSegment url) (String.length (nameSegment url) - 1))
    as [[n rev]|e|]; try contradiction.
  destruct Hsplit as [-> ->].
  destruct Hspec as [[-> ->] | Hspec]; auto.
Qed.

(** The compact grammar keeps the two invariants of the data model: the
    revision is -1 or not negative, and a local URL has no user. *)
Lemma parseV1URL_invariants (url : gourl.URL) (originalURL : string) (r : URL) :
  parseV1URL url originalURL = Ok r ->
  (Revision r = (-1)%Z \/ (0 <= Revision r)%Z)
  /\ (Schema r = "local" -> User r = "").
Proof.
  intros H. split.
  - apply parseV1URL_split in H as [[_ ->] | (d & _ & _ & _ & _ & _ & Hr)]; auto.
  - now apply parseV1URL_ok in H as (_ & _ & _ & _ & _ & Hl & _).
Qed.

(** C5. In the compact grammar the revision is split off the name
    segment only at a hyphen that is followed, up to the end of the
    segment, by a non-empty run of digits (and preceded by a non-empty
    left part), and the loop does cut every segment of that shape whose
    digits fit an [int]; the name is validated after the split.  So
    ["cs:foo-1-2"] is cut into ["foo-1"] and [2] and fails with the
    invalid-name error, and ["n0-n0-n0"] is not cut and parses whole. *)
Theorem compact_name_revision :
  (forall url originalURL r,
     parseV1URL url originalURL = Ok r ->
     IsValidName (Name r) = true
     /\ ((Name r = nameSegment url /\ Revision r = (-1)%Z)
         \/ exists digits,
             nameSegment url = Name r ++ "-" ++ digits
             /\ Name r <> "" /\ digits <> ""
             /\ allBytes isDigit digits = true
             /\ strconv.Atoi digits = Some (Revision r) /\ (0 <= Revision r)%Z))
  /\ (forall n digits rev,
        n <> "" -> digits <> "" ->
        allBytes isDigit digits = true ->
        strconv.Atoi digits = Some rev ->
        splitRevision (n ++ "-" ++ digits) (String.length (n ++ "-" ++ digits) - 1)
        = Ok (n, rev))
  /\ splitRevision "foo-1-2" 6 = Ok ("foo-1", 2%Z)
  /\ IsValidName "foo-1" = false
  /\ ParseURL "cs:foo-1-2" = Err (InvalidName (Raw "cs:foo-1-2"))
  /\ splitRevision "n0-n0-n0" 7 = Ok ("n0-n0-n0", (-1)%Z)
  /\ ParseURL "n0-n0-n0" = Ok (mkURL "cs" "" "n0-n0-n0" (-1) "").
Proof.
  repeat apply conj; try reflexivity.
  - intros url originalURL r H. split; [|now apply parseV1URL_split in H].
    now apply parseV1URL_ok in H as (_ & _ & _ & Hname & _).
  - intros n digits rev Hn Hd Hdigits Hatoi. now apply splitRevision_cut.
  - run. destruct (IsValidSeries "foo-1-2"); run; reflexivity.
  - run. destruct (IsValidSeries "n0-n0-n0"); run; reflexivity.
Qed.

(** ** The choice between the compact and the slash grammar *)

(** C1. [parseNonWebURL] uses the compact grammar alone when the first
    path segment is a series; otherwise it returns what the slash
    grammar returns when that succeeds, and what the compact grammar
    returns (its URL or its error) when the slash grammar fails.
    [ParseURL] hands every input that is opaque, or whose scheme is not
    [http] or [https], to [parseNonWebURL].  ["precise/wordpress"] is
    read as series and name, with no user. *)
Theorem parseNonWebURL_dispatch :
  (forall url originalURL,
     let first := part (strings.Split (gourl.Path url) "/") 0 in
     (IsValidSeries first = true ->
      parseNonWebURL url originalURL = parseV1URL url originalURL)
     /\ (IsValidSeries first = false ->
         forall r, parseV3URL url = Ok r -> parseNonWebURL url originalURL = Ok r)
     /\ (IsValidSeries first = false ->
         (forall r, parseV3URL url <> Ok r) ->
         parseNonWebURL url originalURL = parseV1URL url originalURL))
  /\ (forall raw u,
        gourl.Parse raw = Some u ->
        gourl.RawQuery u = "" -> gourl.Fragment u = "" -> gourl.User u = None ->
        (gourl.Opaque u <> ""
         \/ (gourl.Scheme u <> "http" /\ gourl.Scheme u <> "https")) ->
        ParseURL raw =
        match parseNonWebURL
                (if String.eqb (gourl.Opaque u) "" then u
                 else gourl.withPath u (gourl.Opaque u)) raw with
        | Ok curl => Ok (if String.eqb (Schema curl) "" then withSchema curl "cs" else curl)
        | Err e => Err e
        | Panic => Panic
        end)
  /\ (IsValidSeries "precise" = true ->
      ParseURL "precise/wordpress" = Ok (mkURL "cs" "" "wordpress" (-1) "precise"))
  /\ (IsValidSeries "foo" = false -> IsValidSeries "~blah" = false ->
      parseV3URL (gourl.mkURL "cs" "foo/~blah" None "" "foo/~blah" "" "")
      = Err (InvalidName (Parsed (gourl.mkURL "cs" "foo/~blah" None "" "foo/~blah" "" "")))
      /\ ParseURL "cs:foo/~blah" = Err (InvalidSeries (Raw "cs:foo/~blah"))).
Proof.
  repeat apply conj.
  - intros url originalURL first. unfold charm.parseNonWebURL. fold first.
    repeat apply conj.
    + intros H. now rewrite H.
    + intros H r Hr. now rewrite H, Hr.
    + intros H Hr. rewrite H. destruct (parseV3URL url) as [r|e|]; auto.
      now elim (Hr r).
  - intros raw u HP HQ HF HU Hshape. unfold charm.ParseURL, charm.dispatch.
    rewrite HP, HQ, HF, HU. cbn [String.eqb negb orb].
    destruct (String.eqb (gourl.Opaque u) "") eqn:HO; cbn [negb]; auto.
    apply String.eqb_eq in HO. destruct Hshape as [Hshape | [H1 H2]]; [congruence|].
    apply String.eqb_neq in H1, H2. now rewrite H1, H2.
  - intros H. run. reflexivity.
  - intros H1 H2. split; run; reflexivity.
Qed.

(** ** The web grammar *)

Lemma parseV2URL_no_unrecognized (url : gourl.URL) (q : quoted) :
  parseV2URL url <> Err (UnrecognizedParts q).
Proof.
  unfold charm.parseV2URL. cbv zeta. intros H.
  repeat (match goal with
          | H' : context [match ?x with _ => _ end] |- _ => destruct x eqn:?
          end; try discriminate);
    congruence.
Qed.

(** C6, as the code has it.  After the optional [/u/<user>] prefix and
    the name, a segment that is not an integer is the series; exactly
    one segment after the series must be an integer and fails with the
    malformed-revision error otherwise, and two or more segments after
    the series fail with the invalid-form error.  [parseV2URL] never
    reports unrecognized parts. *)
Theorem web_leftover_segments :
  (forall url q, parseV2URL url <> Err (UnrecognizedParts q))
  /\ (forall url (prefix : list string) name series more,
        strings.Split (strings.Trim (gourl.Path url) "/") "/"
        = (prefix ++ name :: series :: more)%list ->
        (prefix = [] /\ name <> "u") \/ (exists user, prefix = ["u"; user]) ->
        strconv.Atoi series = None ->
        IsValidSeries series = true ->
        (forall p, more = [p] -> strconv.Atoi p = None ->
                   parseV2URL url = Err (MalformedRevision p url))
        /\ ((2 <= List.length more)%nat ->
            parseV2URL url = Err (InvalidForm (Parsed url))))
  /\ (IsValidSeries "trusty" = true ->
      ParseURL "https://host/u/alice/foo/trusty/3/extra"
      = Err (InvalidForm
               (Parsed (gourl.mkURL "https" "" None "host"
                          "/u/alice/foo/trusty/3/extra" "" ""))))
  /\ (IsValidSeries "raring" = true ->
      ParseURL "https://jujucharms.com/name/raring/badwolf"
      = Err (MalformedRevision "badwolf"
               (gourl.mkURL "https" "" None "jujucharms.com"
                  "/name/raring/badwolf" "" ""))).
Proof.
  repeat apply conj.
  - apply parseV2URL_no_unrecognized.
  - intros url prefix name series more Hsplit Hprefix Hatoi Hseries.
    unfold charm.parseV2URL. cbv zeta. rewrite Hsplit.
    destruct Hprefix as [[-> Hname] | [user ->]].
    + apply String.eqb_neq in Hname.
      cbn -[strconv.Atoi charm.IsValidSeries IsValidName]. rewrite Hname.
      cbn -[strconv.Atoi charm.IsValidSeries IsValidName].
      rewrite Hatoi, Hseries. cbn [negb]. split.
      * intros p -> Hp. now rewrite Hp.
      * intros Hlen. destruct more as [|a [|b more]]; simpl in Hlen; try lia.
        reflexivity.
    + assert (L : (len (["u"; user] ++ name :: series :: more) <? 3)%Z = false)
        by (apply Z.ltb_ge; unfold len; cbn [List.length app]; lia).
      rewrite L.
      cbn -[strconv.Atoi charm.IsValidSeries IsValidName].
      rewrite Hatoi, Hseries. cbn [negb]. split.
      * intros p -> Hp. now rewrite Hp.
      * intros Hlen. destruct more as [|a [|b more]]; simpl in Hlen; try lia.
        reflexivity.
  - intros H. run. reflexivity.
  - intros H. run. reflexivity.
Qed.

(** ** What the parsers have validated *)

Lemma minus1_int : (strconv.minInt <= -1 <= strconv.maxInt)%Z.
Proof. split; discriminate. Qed.

Lemma parseV1URL_validated (url : gourl.URL) (originalURL : string) (r : URL) :
  parseV1URL url originalURL = Ok r ->
  Schema r = gourl.Scheme url /\ validated SupportedSeries IsValidUser r.
Proof.
  intros H. pose proof (parseV1URL_split _ _ _ H) as Hrev.
  apply parseV1URL_ok in H as (Hsch & Hs & Hu & Hn & Hser & _).
  split; auto. repeat apply conj; auto;
    (destruct Hrev as [[_ ->] | [d (_ & _ & _ & _ & Hd & _)]];
     [apply minus1_int | eapply Atoi_range; eauto]).
Qed.

Lemma parseV3URL_validated (url : gourl.URL) (r : URL) :
  parseV3URL url = Ok r ->
  Schema r = gourl.Scheme url /\ validated SupportedSeries IsValidUser r.
Proof.
  unfold charm.parseV3URL, validated. cbv zeta.
  destruct (schemaOK (gourl.Scheme url)) eqn:Hschema; [|discriminate].
  cbn [negb].
  pose proof (Split_nonempty (gourl.Path url) "/") as Hne.
  destruct (strings.Split (gourl.Path url) "/") as [|p0 [|p1 [|p2 [|p3 [|p4 parts]]]]];
    [congruence| | | | |];
    try (match goal with
         | |- context [(4 <? len (?a :: ?b :: ?c :: ?d :: ?e :: ?l))%Z] =>
             assert (L : (4 <? len (a :: b :: c :: d :: e :: l))%Z = true)
               by (apply Z.ltb_lt; unfold len; cbn [List.length]; lia);
             assert (L' : (len (a :: b :: c :: d :: e :: l) <? 1)%Z = false)
               by (apply Z.ltb_ge; unfold len; cbn [List.length]; lia);
             rewrite L, L'; discriminate
         end);
    cbn -[IsValidName strconv.Atoi charm.IsValidSeries strconv.minInt strconv.maxInt];
    intros H;
    repeat (match type of H with
            | context [strconv.Atoi ?p] => destruct (strconv.Atoi p) eqn:?
            | context [charm.IsValidSeries ?l ?p] => destruct (charm.IsValidSeries l p) eqn:?
            | context [IsValidName ?p] => destruct (IsValidName p) eqn:?
            | context [IsValidUser ?p] => destruct (IsValidUser p) eqn:?
            end;
            cbn -[IsValidName strconv.Atoi charm.IsValidSeries] in H;
            try discriminate);
    inversion H; subst; clear H;
    repeat match goal with
      | E : strconv.Atoi _ = Some _ |- _ => apply Atoi_range in E
      end;
    cbn -[strconv.minInt strconv.maxInt];
    pose proof minus1_int;
    repeat apply conj; auto; lia.
Qed.

Lemma user_checked (user : string) :
  negb (String.eqb user "") && negb (IsValidUser user) = false ->
  user = "" \/ IsValidUser user = true.
Proof.
  destruct (String.eqb user "") eqn:E; [apply String.eqb_eq in E; auto|].
  simpl. intros H. apply negb_false_iff in H. auto.
Qed.

Lemma parseV2URL_validated (url : gourl.URL) (r : URL) :
  parseV2URL url = Ok r ->
  Schema r = "cs" /\ validated SupportedSeries IsValidUser r.
Proof.
  unfold charm.parseV2URL, validated. cbv zeta. intros H.
  repeat (match goal with
          | H' : context [match ?x with _ => _ end] |- _ => destruct x eqn:?
          end; try discriminate);
    repeat match goal with
      | E : Ok _ = Ok _ |- _ => inversion E; subst; clear E
      | E : strconv.Atoi _ = Some _ |- _ => apply Atoi_range in E
      | E : negb _ = false |- _ => apply negb_false_iff in E
      | E : negb _ && negb _ = false |- _ => apply user_checked in E
      end;
    cbn -[strconv.minInt strconv.maxInt];
    pose proof minus1_int;
    repeat apply conj; auto; lia.
Qed.

Lemma schemaOK_cases (schema : string) :
  schemaOK schema = true -> schema = "" \/ schema = "cs" \/ schema = "local".
Proof.
  unfold schemaOK. rewrite !orb_true_iff, !String.eqb_eq. tauto.
Qed.

Lemma parseNonWebURL_validated (url : gourl.URL) (originalURL : string) (r : URL) :
  parseNonWebURL url originalURL = Ok r ->
  Schema r = gourl.Scheme url /\ validated SupportedSeries IsValidUser r.
Proof.
  unfold charm.parseNonWebURL.
  destruct (IsValidSeries _); [apply parseV1URL_validated|].
  destruct (parseV3URL url) as [r'|e|] eqn:H3;
    try apply parseV1URL_validated.
  intros H; inversion H; subst. now apply parseV3URL_validated.
Qed.

(** Every URL that [ParseURL] returns has schema ["cs"] or ["local"], a
    valid name, a user and a series that are empty or valid, and a
    revision that is an [int]. *)
Lemma ParseURL_validated (url : string) (r : URL) :
  ParseURL url = Ok r ->
  (Schema r = "cs" \/ Schema r = "local")
  /\ validated SupportedSeries IsValidUser r.
Proof.
  unfold charm.ParseURL.
  destruct (gourl.Parse url) as [u|]; [|discriminate].
  destruct (_ || _); [discriminate|].
  assert (D : exists scheme, forall curl,
               dispatch u url = Ok curl ->
               (Schema curl = scheme \/ Schema curl = "cs")
               /\ validated SupportedSeries IsValidUser curl).
  { unfold charm.dispatch.
    destruct (negb (String.eqb (gourl.Opaque u) "")).
    - exists (gourl.Scheme u). intros curl H.
      apply parseNonWebURL_validated in H as [H1 H2]. auto.
    - destruct (_ || _).
      + exists "cs". intros curl H. apply parseV2URL_validated in H as [H1 H2]. auto.
      + exists (gourl.Scheme u). intros curl H.
        apply parseNonWebURL_validated in H as [H1 H2]. auto. }
  destruct D as [scheme D].
  destruct (dispatch u url) as [curl|e|]; try discriminate.
  destruct (D curl eq_refl) as [_ V].
  intros H; inversion H; subst; clear H.
  pose proof V as (Hs & Hu & Hn & Hser & Hrev).
  destruct (String.eqb (Schema curl) "") eqn:E.
  - split; [now left|]. unfold validated. cbn. auto.
  - split; [|exact V]. apply String.eqb_neq in E.
    destruct (schemaOK_cases _ Hs) as [? | [? | ?]]; auto. congruence.
Qed.

End Parsers.

(* ================================================================== *)
(** * Rendering and parsing again *)

Lemma clean_facts (s : string) :
  allBytes cleanByte s = true ->
  strings.ContainsByte s "#" = false
  /\ strings.ContainsByte s "?" = false
  /\ gourl.stringContainsCTLByte s = false.
Proof.
  induction s as [|b s IH]; simpl; [auto|].
  intros H. apply andb_true_iff in H as [Hb Hs].
  destruct (IH Hs) as (H1 & H2 & H3). rewrite H1, H2, H3.
  unfold cleanByte, oneOf in Hb. simpl in Hb.
  apply negb_true_iff in Hb.
  repeat (apply orb_false_iff in Hb as [Hb ?]).
  repeat match goal with
    | E : (_ || _) = false |- _ => apply orb_false_iff in E as [? ?]
    end.
  repeat apply conj; rewrite ?orb_false_r; auto.
Qed.

Lemma plain_clean (s : string) : plain s = true -> allBytes cleanByte s = true.
Proof.
  apply allBytes_impl. intros b. unfold plainByte, cleanByte, oneOf. simpl.
  rewrite !negb_true_iff, !orb_false_iff. tauto.
Qed.

Lemma plain_no_slash (s : string) :
  plain s = true -> strings.ContainsByte s "/" = false.
Proof.
  induction s as [|b s IH]; simpl; [auto|].
  intros H. apply andb_true_iff in H as [Hb Hs]. rewrite (IH Hs).
  unfold plainByte, oneOf in Hb. simpl in Hb.
  apply negb_true_iff in Hb. apply orb_false_iff in Hb as [Hb _].
  apply orb_false_iff in Hb as [Hb _]. now rewrite Hb.
Qed.

(** A rendered path: parts without separators, joined by [/]. *)
Lemma Join_clean (parts : list string) :
  Forall (fun p => plain p = true) parts ->
  allBytes cleanByte (strings.Join parts "/") = true.
Proof.
  induction parts as [|p [|q parts] IH]; intros H; [reflexivity| |].
  - inversion H; subst. now apply plain_clean.
  - inversion H; subst.
    change (strings.Join (p :: q :: parts) "/")
      with (p ++ "/" ++ strings.Join (q :: parts) "/").
    rewrite !allBytes_app, plain_clean, IH by auto. reflexivity.
Qed.

(** [url.Parse] on [schema:rest], where the rest does not start with a
    slash: the URL is opaque. *)
Lemma Parse_opaque (schema rest : string) :
  schema = "cs" \/ schema = "local" ->
  strings.HasPrefix rest "/" = false ->
  allBytes cleanByte rest = true ->
  gourl.Parse (schema ++ ":" ++ rest) = Some (gourl.mkURL schema rest None "" "" "" "").
Proof.
  intros Hschema Hrooted Hclean.
  destruct (clean_facts _ Hclean) as (Hhash & Hquery & Hctl).
  assert (Hsuffix : strings.HasSuffixByte rest "?" = false).
  { unfold strings.HasSuffixByte. destruct (strings.lastByte rest) as [a|] eqn:E; auto.
    destruct (Ascii.eqb a "?") eqn:Ea; auto. apply Ascii.eqb_eq in Ea. subst a.
    now apply lastByte_none in E. }
  unfold gourl.Parse, gourl.parse, gourl.getScheme.
  destruct Hschema; subst schema; simpl;
    rewrite (Cut_none _ _ Hhash); simpl;
    rewrite Hctl, Hsuffix, (Cut_none _ _ Hquery); cbn [andb];
    rewrite Hrooted; reflexivity.
Qed.

(** The rendering [schema:p/...]: parsed as an opaque URL whose path
    splits into the parts it was joined from. *)
Lemma Parse_rendered (schema p : string) (ps : list string) :
  schema = "cs" \/ schema = "local" ->
  Forall (fun q => plain q = true) (p :: ps) ->
  p <> "" ->
  let rest := strings.Join (p :: ps) "/" in
  gourl.Parse (schema ++ ":" ++ rest) = Some (gourl.mkURL schema rest None "" "" "" "")
  /\ String.eqb rest "" = false
  /\ strings.Split rest "/" = p :: ps.
Proof.
  intros Hschema Hplain Hp rest.
  assert (Hrest : exists c t, rest = String c t /\ Ascii.eqb c "/" = false).
  { inversion Hplain as [|? ? Hp' _]; subst.
    destruct p as [|c t]; [congruence|]. simpl in Hp'.
    apply andb_true_iff in Hp' as [Hc _].
    unfold plainByte, oneOf in Hc. simpl in Hc. apply negb_true_iff in Hc.
    apply orb_false_iff in Hc as [Hc _]. apply orb_false_iff in Hc as [Hc _].
    unfold rest. destruct ps; simpl; eauto. }
  destruct Hrest as (c & t & Hrest & Hc).
  repeat apply conj.
  - apply Parse_opaque; auto.
    + rewrite Hrest. simpl. now rewrite Hc.
    + now apply Join_clean.
  - now rewrite Hrest.
  - apply (Split_Join (p :: ps) "/"); [discriminate|].
    revert Hplain. apply Forall_impl. intros q. apply plain_no_slash.
Qed.

Lemma validName_bytes (b : byte) :
  regexp.alphabet validName b = true -> plainByte b = true.
Proof. bytes b; vm_compute; intros; try discriminate; reflexivity. Qed.

Lemma validName_first_byte (b : byte) :
  regexp.first validName b = true ->
  isDigit b = false /\ b <> "-"%char /\ b <> "+"%char.
Proof.
  bytes b; vm_compute; intros; try discriminate;
    repeat apply conj; try reflexivity; discriminate.
Qed.

(** A valid name has no separator in it, starts with a letter, and is
    not an integer. *)
Lemma IsValidName_facts (name : string) :
  IsValidName name = true ->
  plain name = true /\ strconv.Atoi name = None /\ name <> "".
Proof.
  intros H. apply regexp_facts.MatchString_lang in H.
  pose proof (regexp_facts.lang_alphabet _ _ H) as Ha.
  apply (allBytes_impl _ plainByte) in Ha; [|apply validName_bytes].
  destruct name as [|c t].
  { apply regexp_facts.lang_nil_nullable in H; [discriminate|reflexivity]. }
  pose proof (regexp_facts.lang_first _ _ H _ _ eq_refl) as Hf.
  apply validName_first_byte in Hf as (Hd & Hm & Hp).
  repeat apply conj; auto; [|discriminate].
  destruct (strconv.Atoi (String c t)) as [n|] eqn:E; auto.
  apply Atoi_first in E as [E | [E | E]]; congruence.
Qed.

Lemma digit_plain (b : byte) : isDigit b = true -> plainByte b = true.
Proof. bytes b; vm_compute; intros; try discriminate; reflexivity. Qed.

Lemma Itoa_plain (n : Z) : (0 <= n)%Z -> plain (strconv.Itoa n) = true.
Proof.
  intros H. destruct (Itoa_digits n H) as [Hd _].
  revert Hd. apply allBytes_impl, digit_plain.
Qed.

Section RoundTrip.

Variable SupportedSeries : list string.
Variable IsValidUser : string -> bool.

Local Abbreviation IsValidSeries := (IsValidSeries SupportedSeries).
Local Abbreviation ParseURL := (ParseURL SupportedSeries IsValidUser).

(** The two vocabularies hold plain words, and no series is an integer. *)
Hypothesis series_plain :
  forall s, In s SupportedSeries -> plain s = true /\ strconv.Atoi s = None.
Hypothesis user_plain :
  forall s, IsValidUser s = true -> plain s = true.

Lemma IsValidSeries_facts (s : string) :
  IsValidSeries s = true -> plain s = true /\ strconv.Atoi s = None.
Proof.
  unfold charm.IsValidSeries, validSeries. cbn [existsb].
  intros H. apply orb_true_iff in H as [H | H].
  - apply String.eqb_eq in H. subst s. split; reflexivity.
  - apply existsb_exists in H as [x [Hx E]]. apply String.eqb_eq in E. subst x.
    now apply series_plain.
Qed.

(** Parsing the rendering of a validated URL, when neither its user nor
    its name is a series and its revision is not below -1. *)
Lemma ParseURL_String (r : URL) :
  (Schema r = "cs" \/ Schema r = "local") ->
  validated SupportedSeries IsValidUser r ->
  (-1 <= Revision r)%Z ->
  (User r = "" \/ IsValidSeries (User r) = false) ->
  IsValidSeries (Name r) = false ->
  ParseURL (String_ r) = Ok r.
Proof.
  destruct r as [schema user name rev series]. unfold validated.
  cbn [Schema User Name Revision Series].
  intros Hschema (_ & Huser & Hname & Hseries & Hrange) Hrev Huser' Hname'.
  destruct (IsValidName_facts _ Hname) as (Pname & Aname & Nname).
  assert (Fuser : user = "" \/
                  (String.eqb user "" = false /\ user <> ""
                   /\ IsValidUser user = true /\ IsValidSeries user = false
                   /\ plain user = true)).
  { destruct (String.eqb user "") eqn:E; [apply String.eqb_eq in E; auto|].
    apply String.eqb_neq in E. right.
    destruct Huser as [|Hu]; [contradiction|]. destruct Huser' as [|Hu']; [contradiction|].
    repeat apply conj; auto. }
  assert (Fseries : series = "" \/
                    (String.eqb series "" = false /\ IsValidSeries series = true
                     /\ plain series = true /\ strconv.Atoi series = None)).
  { destruct (String.eqb series "") eqn:E; [apply String.eqb_eq in E; auto|].
    apply String.eqb_neq in E. right.
    destruct Hseries as [|Hs]; [contradiction|].
    destruct (IsValidSeries_facts _ Hs). auto. }
  assert (Frev : ((0 <=? rev)%Z = false /\ rev = (-1)%Z) \/
                 ((0 <=? rev)%Z = true /\ plain (strconv.Itoa rev) = true
                  /\ strconv.Atoi (strconv.Itoa rev) = Some rev)).
  { destruct (0 <=? rev)%Z eqn:E; [right | left].
    - apply Z.leb_le in E. repeat apply conj; auto using Itoa_plain.
      apply Atoi_Itoa. split; [lia | exact (proj2 Hrange)].
    - apply Z.leb_gt in E. split; auto. lia. }
  assert (Hok : schemaOK schema = true /\ String.eqb schema "" = false)
    by (destruct Hschema; subst; split; reflexivity).
  destruct Hok as [Hok Hnonempty].
  clear Huser Huser' Hseries Hrange Hrev.
  unfold String_. cbn [Schema User Name Revision Series].
  destruct Fuser as [-> | (Eu & Nu & Vu & Su & Pu)];
    destruct Fseries as [-> | (Es & Vs & Ps & As)];
    destruct Frev as [(Er & ->) | (Er & Pr & Ar)];
    rewrite ?Eu, ?Es, ?Er; cbn [String.eqb List.app];
    match goal with
    | |- charm.ParseURL _ _ (schema ++ ":" ++ strings.Join (?p :: ?ps) "/") = _ =>
        destruct (Parse_rendered schema p ps Hschema) as (HP & HE & HS);
        [repeat constructor; assumption | assumption |];
        cbv zeta in HP, HE, HS;
        remember (strings.Join (p :: ps) "/") as rest eqn:Hrest; clear Hrest
    end;
    unfold charm.ParseURL, charm.dispatch; rewrite HP;
    cbn [gourl.RawQuery gourl.Fragment gourl.User gourl.Opaque gourl.Scheme
           String.eqb negb orb];
    rewrite HE; cbn [negb];
    unfold charm.parseNonWebURL, charm.parseV3URL, gourl.withPath;
    cbn [gourl.RawQuery gourl.Fragment gourl.User gourl.Opaque gourl.Scheme
           gourl.Path gourl.Host];
    rewrite HS, Hok;
    repeat (first
      [ progress cbn -[charm.IsValidSeries IsValidName strconv.Atoi strconv.Itoa]
      | rewrite Aname | rewrite Hname | rewrite Hname' | rewrite Vu | rewrite Su
      | rewrite Vs | rewrite As | rewrite Ar | rewrite Hnonempty ]);
    reflexivity.
Qed.

(** C2, as the code has it.  With vocabularies of plain words, none of
    them an integer: for every URL [r] that [ParseURL] returns, if the
    revision of [r] is not below -1 and neither its user nor its name is
    a series, then [ParseURL(r.String())] succeeds and returns [r]. *)
Theorem round_trip (raw : string) (r : URL) :
  ParseURL raw = Ok r ->
  (-1 <= Revision r)%Z ->
  (User r = "" \/ IsValidSeries (User r) = false) ->
  IsValidSeries (Name r) = false ->
  ParseURL (String_ r) = Ok r.
Proof.
  intros H. apply ParseURL_validated in H as [Hschema Hvalid].
  now apply ParseURL_String.
Qed.

End RoundTrip.

(* ================================================================== *)
(** * The examples, with the Ubuntu series and the juju user names *)

Lemma ubuntuSeries_plain (s : string) :
  In s ubuntuSeries -> plain s = true /\ strconv.Atoi s = None.
Proof.
  intros H. simpl in H.
  repeat (destruct H as [<- | H]; [split; reflexivity|]). contradiction.
Qed.

Lemma namesIsValidUser_plain (s : string) :
  namesIsValidUser s = true -> plain s = true.
Proof.
  intros H. apply regexp_facts.MatchString_lang, regexp_facts.lang_alphabet in H.
  revert H. apply allBytes_impl.
  intros b. bytes b; vm_compute; intros; try discriminate; reflexivity.
Qed.

Lemma parseNonWebURL_dispatch_witness :
  IsValidSeries ubuntuSeries "precise" = true
  /\ ParseURL ubuntuSeries namesIsValidUser "precise/wordpress"
     = Ok (mkURL "cs" "" "wordpress" (-1) "precise").
Proof.
  split; [reflexivity|].
  apply (proj1 (proj2 (proj2 (parseNonWebURL_dispatch ubuntuSeries namesIsValidUser)))).
  reflexivity.
Defined.

(** C2 fails as stated: ["cs:~joe/trusty"] parses to the user [joe] and
    the name [trusty]; its rendering ["cs:joe/trusty"] parses to the name
    [joe] and the series [trusty]. *)
Lemma round_trip_counterexample :
  ~ (forall raw r,
       ParseURL ubuntuSeries namesIsValidUser raw = Ok r ->
       ParseURL ubuntuSeries namesIsValidUser (String_ r) = Ok r).
Proof.
  intros H.
  specialize (H "cs:~joe/trusty" (mkURL "cs" "joe" "trusty" (-1) "") eq_refl).
  vm_compute in H. discriminate.
Qed.

Lemma round_trip_witness :
  ParseURL ubuntuSeries namesIsValidUser "cs:~user/trusty/name-3"
  = Ok (mkURL "cs" "user" "name" 3 "trusty")
  /\ ParseURL ubuntuSeries namesIsValidUser (String_ (mkURL "cs" "user" "name" 3 "trusty"))
     = Ok (mkURL "cs" "user" "name" 3 "trusty").
Proof.
  split; [reflexivity|].
  apply (round_trip ubuntuSeries namesIsValidUser ubuntuSeries_plain
           namesIsValidUser_plain "cs:~user/trusty/name-3").
  - reflexivity.
  - simpl. lia.
  - right. reflexivity.
  - reflexivity.
Defined.

(** C3 fails on the code: the slash and the web grammar convert the
    revision with [strconv.Atoi], which accepts a sign, so
    ["cs:foo/-5"] and ["https://host/foo/-5"] parse to the revision -5;
    the compact grammar reads digits only. *)
Theorem negative_revision_parsed :
  strconv.Atoi "-5" = Some (-5)%Z
  /\ ParseURL ubuntuSeries namesIsValidUser "cs:foo/-5" = Ok (mkURL "cs" "" "foo" (-5) "")
  /\ ParseURL ubuntuSeries namesIsValidUser "https://host/foo/-5"
     = Ok (mkURL "cs" "" "foo" (-5) "")
  /\ String_ (mkURL "cs" "" "foo" (-5) "") = "cs:foo".
Proof. repeat apply conj; reflexivity. Qed.

(** C4 fails on the code: the compact grammar rejects a user under the
    local schema, the slash grammar does not, so ["local:alice/foo"]
    parses to a local URL with the user [alice]. *)
Theorem local_user_parsed :
  ParseURL ubuntuSeries namesIsValidUser "local:alice/foo"
  = Ok (mkURL "local" "alice" "foo" (-1) "")
  /\ ParseURL ubuntuSeries namesIsValidUser "local:~alice/trusty/foo"
     = Err (LocalURLWithUser "local:~alice/trusty/foo").
Proof. split; reflexivity. Qed.

Lemma compact_name_revision_witness :
  let url := gourl.mkURL "cs" "xenial/name-42" None "" "xenial/name-42" "" "" in
  let r := mkURL "cs" "" "name" 42 "xenial" in
  parseV1URL ubuntuSeries namesIsValidUser url "cs:xenial/name-42" = Ok r
  /\ IsValidName (Name r) = true
  /\ ((Name r = nameSegment url /\ Revision r = (-1)%Z)
      \/ exists digits,
          nameSegment url = Name r ++ "-" ++ digits
          /\ Name r <> "" /\ digits <> ""
          /\ allBytes isDigit digits = true
          /\ strconv.Atoi digits = Some (Revision r) /\ (0 <= Revision r)%Z).
Proof.
  intros url r. split; [reflexivity|].
  apply (proj1 (compact_name_revision ubuntuSeries namesIsValidUser) url "cs:xenial/name-42").
  reflexivity.
Defined.

(** C6 fails as stated: the segment left over after the revision gives
    the invalid-form error, not the unrecognized-parts error. *)
Lemma web_leftover_counterexample :
  (exists q, ParseURL ubuntuSeries namesIsValidUser
               "https://host/u/alice/foo/trusty/3/extra" = Err (InvalidForm q))
  /\ (forall q, ParseURL ubuntuSeries namesIsValidUser
                  "https://host/u/alice/foo/trusty/3/extra"
                <> Err (UnrecognizedParts q)).
Proof.
  split.
  - eexists. reflexivity.
  - intros q H. vm_compute in H. discriminate.
Qed.

Lemma web_leftover_segments_witness :
  let url := gourl.mkURL "https" "" None "jujucharms.com" "/name/raring/badwolf" "" "" in
  strings.Split (strings.Trim (gourl.Path url) "/") "/"
  = ([] ++ "name" :: "raring" :: ["badwolf"])%list
  /\ strconv.Atoi "raring" = None
  /\ IsValidSeries ubuntuSeries "raring" = true
  /\ strconv.Atoi "badwolf" = None
  /\ parseV2URL ubuntuSeries namesIsValidUser url = Err (MalformedRevision "badwolf" url).
Proof.
  intros url. do 4 (split; [reflexivity|]).
  destruct (proj1 (proj2 (web_leftover_segments ubuntuSeries namesIsValidUser))
              url [] "name" "raring" ["badwolf"]) as [H _].
  - reflexivity.
  - left. split; [reflexivity | discriminate].
  - reflexivity.
  - reflexivity.
  - apply H; reflexivity.
Defined.

Lemma InferURL_spec_witness :
  ParseURL ubuntuSeries namesIsValidUser "cs:~user/name"
  = Ok (mkURL "cs" "user" "name" (-1) "")
  /\ InferURL ubuntuSeries namesIsValidUser "cs:~user/name" "trusty"
     = Ok (mkURL "cs" "user" "name" (-1) "trusty")
  /\ InferURL ubuntuSeries namesIsValidUser "cs:~user/name" ""
     = Err (UnresolvedSeries "cs:~user/name").
Proof.
  split; [reflexivity|]. split.
  - apply (proj1 (proj2 (proj2 (proj2 (InferURL_spec ubuntuSeries namesIsValidUser
                                         "cs:~user/name" "trusty"))))
             (mkURL "cs" "user" "name" (-1) "")).
    + reflexivity.
    + reflexivity.
    + discriminate.
  - apply (proj1 (proj2 (proj2 (proj2 (proj2 (InferURL_spec ubuntuSeries namesIsValidUser
                                                "cs:~user/name" "")))))
             (mkURL "cs" "user" "name" (-1) "")); reflexivity.
Defined.

(* ================================================================== *)
(** * Further properties of [Quote] *)

Lemma lowerHex_safe (h : byte) : lowerHex h = true -> isSafe h = true.
Proof. bytes h; vm_compute; intros; try discriminate; reflexivity. Qed.

Lemma Quote_bytes (s : string) : allBytes quotedByte (Quote s) = true.
Proof.
  induction s as [|b s IH]; [reflexivity|]. cbn [Quote].
  destruct (isSafe b) eqn:Sb.
  - cbn [allBytes]. unfold quotedByte at 1. now rewrite Sb, IH.
  - destruct (hex2_value b) as (h1 & h2 & E & H1 & H2 & _). rewrite E.
    cbn [String.append allBytes]. unfold quotedByte at 1 2 3 4.
    rewrite (lowerHex_safe _ H1), (lowerHex_safe _ H2), IH. reflexivity.
Qed.

(** X1. [Quote] gives a name that is safe in a file path: its bytes are
    ASCII letters, digits, [.], [-] and [_]; there is no path separator
    and no control byte in it, whatever the input is. *)
Theorem Quote_is_path_safe (s : string) :
  allBytes quotedByte (Quote s) = true
  /\ strings.ContainsByte (Quote s) "/" = false
  /\ strings.ContainsByte (Quote s) "\" = false
  /\ gourl.stringContainsCTLByte (Quote s) = false.
Proof.
  pose proof (Quote_bytes s) as H. split; [exact H|].
  induction (Quote s) as [|b q IH]; [repeat split|].
  cbn [allBytes] in H. apply andb_true_iff in H as [Hb Hq].
  destruct (IH Hq) as (H1 & H2 & H3).
  cbn [strings.ContainsByte gourl.stringContainsCTLByte]. rewrite H1, H2, H3.
  clear - Hb. bytes b; vm_compute in Hb; try discriminate; repeat split.
Qed.

Lemma Quote_length (s : string) :
  String.length s <= String.length (Quote s) <= 4 * String.length s.
Proof.
  induction s as [|b s IH]; [simpl; lia|]. cbn [Quote].
  destruct (isSafe b); cbn [String.length String.append strconv.hex2]; lia.
Qed.

Lemma Quote_same_length (s : string) :
  String.length (Quote s) = String.length s -> allBytes isSafe s = true.
Proof.
  induction s as [|b s IH]; [reflexivity|]. cbn [Quote allBytes].
  pose proof (Quote_length s).
  destruct (isSafe b); cbn [String.length String.append strconv.hex2 andb];
    intros E; [apply IH; lia | lia].
Qed.

(** X2. The buffer that [Quote] allocates, of capacity [len(unsafe)*4], is
    never outgrown, and the result is never shorter than the input; it
    has the length of the input, and is the input itself, exactly when
    every byte of the input is a letter, a digit, [.] or [-]. *)
Theorem Quote_length_bounds (s : string) :
  String.length s <= String.length (Quote s) <= 4 * String.length s
  /\ (String.length (Quote s) = String.length s <-> allBytes isSafe s = true)
  /\ (Quote s = s <-> allBytes isSafe s = true).
Proof.
  split; [apply Quote_length|]. split; split.
  - apply Quote_same_length.
  - intros H. now rewrite Quote_safe.
  - intros H. apply Quote_same_length. now rewrite H.
  - apply Quote_safe.
Qed.

(** X3. [Quote] works byte by byte: quoting a concatenation is concatenating
    the quoted parts, so a quoted URL keeps its quoted prefix. *)
Theorem Quote_app (s t : string) : Quote (s ++ t) = Quote s ++ Quote t.
Proof.
  induction s as [|b s IH]; [reflexivity|].
  cbn [String.append Quote]. rewrite IH.
  destruct (isSafe b); [reflexivity|]. now rewrite !append_assoc.
Qed.

(* ================================================================== *)
(** * The names that [IsValidName] accepts *)

Module name_shape.
Import regexp regexp_facts.

Lemma lang_seq_eps (r : re) (s : string) : lang (Seq Eps r) s <-> lang r s.
Proof.
  split; intros H.
  - inversion H as [| |? ? s1 s2 H1 H2| | | |]; subst. inversion H1; subst. exact H2.
  - change s with (EmptyString ++ s). constructor; [constructor | exact H].
Qed.

Lemma lang_seq_void (r : re) (s : string) : lang (Seq Void r) s <-> False.
Proof.
  split; [|contradiction]. intros H.
  inversion H as [| |? ? s1 s2 H1 H2| | | |]; subst. inversion H1.
Qed.

Lemma lang_alt (r1 r2 : re) (s : string) :
  lang (Alt r1 r2) s <-> lang r1 s \/ lang r2 s.
Proof.
  split; intros H.
  - inversion H; subst; auto.
  - destruct H; [apply lang_alt_l | apply lang_alt_r]; auto.
Qed.

Lemma lang_seq_assoc (a b c : re) (s : string) :
  lang (Seq (Seq a b) c) s <-> lang (Seq a (Seq b c)) s.
Proof.
  split; intros H.
  - inversion H as [| |? ? s12 s3 H12 H3| | | |]; subst.
    inversion H12 as [| |? ? s1 s2 H1 H2| | | |]; subst.
    rewrite strconv_facts.append_assoc. constructor; [|constructor]; auto.
  - inversion H as [| |? ? s1 s23 H1 H23| | | |]; subst.
    inversion H23 as [| |? ? s2 s3 H2 H3| | | |]; subst.
    rewrite <- strconv_facts.append_assoc. constructor; [constructor|]; auto.
Qed.

Lemma lang_seq_alt (a b c : re) (s : string) :
  lang (Seq (Alt a b) c) s <-> lang (Seq a c) s \/ lang (Seq b c) s.
Proof.
  split; intros H.
  - inversion H as [| |? ? s1 s2 H1 H2| | | |]; subst.
    inversion H1; subst; [left | right]; constructor; auto.
  - destruct H as [H | H]; inversion H as [| |? ? s1 s2 H1 H2| | | |]; subst;
      constructor; auto; [apply lang_alt_l | apply lang_alt_r]; auto.
Qed.

Lemma lang_cons (r : re) (c : byte) (s : string) :
  lang r (String c s) <-> lang (deriv c r) s.
Proof.
  split; [intros H; eapply lang_deriv; eauto | apply deriv_lang].
Qed.

Lemma seenLetter_cons (c : byte) (s : string) :
  lang seenLetter (String c s) <->
  ((isLower c || isDigit c = true) /\ lang seenLetter s)
  \/ (Ascii.eqb c "-" = true /\ lang needLetter s).
Proof.
  rewrite lang_cons. unfold seenLetter, needLetter, groups. cbn [deriv nullable Lit lowerOrDigit].
  rewrite lang_alt.
  destruct (isLower c || isDigit c) eqn:E1;
    destruct (Ascii.eqb "-" c) eqn:E2;
    rewrite (Ascii.eqb_sym c "-"), E2;
    rewrite !lang_seq_assoc, ?lang_seq_eps, ?lang_seq_void, ?lang_seq_assoc;
    intuition congruence.
Qed.

Lemma needLetter_cons (c : byte) (s : string) :
  lang needLetter (String c s) <->
  ((isLower c || isDigit c = true) /\ lang needLetter s)
  \/ (isLower c = true /\ lang seenLetter s).
Proof.
  rewrite lang_cons. unfold seenLetter, needLetter, groups.
  cbn [deriv nullable Lit lowerOrDigit andb orb].
  rewrite lang_seq_alt.
  destruct (isLower c || isDigit c) eqn:E1; destruct (isLower c) eqn:E2;
    rewrite !lang_seq_assoc, ?lang_seq_eps, ?lang_seq_void, ?lang_seq_assoc;
    intuition congruence.
Qed.

Lemma nameRest_mono (s : string) :
  nameRest false s = true -> nameRest true s = true.
Proof.
  induction s as [|c s IH]; simpl; [discriminate|].
  destruct (Ascii.eqb c "-"); [discriminate|].
  destruct (isLower c); auto. destruct (isDigit c); auto.
Qed.

Lemma hyphen_class (c : byte) :
  Ascii.eqb c "-" = true -> isLower c = false /\ isDigit c = false.
Proof. intros H. apply Ascii.eqb_eq in H. subst c. split; reflexivity. Qed.

Lemma states_nameRest (s : string) :
  (lang seenLetter s <-> nameRest true s = true)
  /\ (lang needLetter s <-> nameRest false s = true).
Proof.
  induction s as [|c s [IH1 IH0]].
  - split; split; intros H; try discriminate.
    + reflexivity.
    + apply nullable_lang. reflexivity.
    + apply lang_nil_nullable in H; [discriminate | reflexivity].
  - rewrite seenLetter_cons, needLetter_cons, IH1, IH0. cbn [nameRest].
    destruct (Ascii.eqb c "-") eqn:Eh.
    + destruct (hyphen_class _ Eh) as [-> ->]. cbn. intuition congruence.
    + destruct (isLower c) eqn:El; cbn.
      * pose proof (nameRest_mono s). intuition congruence.
      * destruct (isDigit c); intuition congruence.
Qed.

Lemma IsValidName_nameShape (s : string) : IsValidName s = nameShape s.
Proof.
  apply eq_true_iff_eq. unfold IsValidName. rewrite MatchString_iff.
  destruct s as [|c s].
  - split; intros H; [|discriminate].
    apply lang_nil_nullable in H; [discriminate | reflexivity].
  - rewrite lang_cons. unfold validName. cbn [deriv nullable nameShape].
    fold groups. fold seenLetter.
    destruct (isLower c); rewrite ?lang_seq_eps, ?lang_seq_void;
      [apply (proj1 (states_nameRest s)) | cbn; intuition congruence].
Qed.

End name_shape.

Lemma nameRest_digits (d : string) :
  allBytes isDigit d = true -> nameRest false d = false.
Proof.
  induction d as [|c d IH]; [reflexivity|]. cbn [allBytes nameRest].
  intros H. apply andb_true_iff in H as [Hc Hd]. rewrite (IH Hd), Hc.
  clear - Hc. bytes c; vm_compute in Hc; try discriminate; reflexivity.
Qed.

Lemma nameRest_suffix (n d : string) :
  forall seen, allBytes isDigit d = true -> nameRest seen (n ++ "-" ++ d) = false.
Proof.
  induction n as [|c n IH]; intros seen Hd.
  - cbn [String.append nameRest]. rewrite Ascii.eqb_refl, (nameRest_digits _ Hd).
    apply andb_false_r.
  - cbn [String.append nameRest].
    rewrite !(IH _ Hd). rewrite andb_false_r.
    destruct (Ascii.eqb c "-"), (isLower c), (isDigit c); reflexivity.
Qed.

(** What a valid name looks like at its two ends. *)
Lemma IsValidName_ends (name : string) :
  IsValidName name = true ->
  (exists c t, name = String c t /\ isLower c = true)
  /\ forall n d, allBytes isDigit d = true -> name <> n ++ "-" ++ d.
Proof.
  rewrite name_shape.IsValidName_nameShape. intros H. split.
  - destruct name as [|c t]; [discriminate|]. cbn in H.
    apply andb_true_iff in H as [Hc _]. eauto.
  - intros n d Hd E. subst name.
    destruct n as [|c n]; cbn [String.append nameShape] in H; [discriminate|].
    change ("-" ++ d) with (String "-" d) in H.
    change (n ++ String "-" d) with (n ++ "-" ++ d) in H.
    rewrite (nameRest_suffix _ _ _ Hd), andb_false_r in H. discriminate.
Qed.

(** The loop of the compact grammar leaves a valid name whole. *)
Lemma splitRevision_valid_name (name : string) :
  IsValidName name = true ->
  splitRevision name (String.length name - 1) = Ok (name, (-1)%Z).
Proof.
  intros H. destruct (IsValidName_ends _ H) as [_ Hends].
  pose proof (splitRevision_start name) as Hspec.
  destruct (splitRevision name (String.length name - 1)) as [[n r]|e|].
  - destruct Hspec as [[-> ->] | (d & E & _ & _ & Hd & _)]; [reflexivity|].
    now elim (Hends n d Hd).
  - contradiction.
  - destruct Hspec as (n & d & E & _ & _ & Hd & _). now elim (Hends n d Hd).
Qed.

(** X4. [IsValidName] accepts exactly the strings that start with a
    lower-case letter, hold lower-case letters, digits and hyphens only,
    and have a letter in every segment that follows a hyphen. *)
Theorem IsValidName_shape (s : string) : IsValidName s = nameShape s.
Proof. apply name_shape.IsValidName_nameShape. Qed.

(** X5. No valid name ends in a hyphen followed by digits only (or by
    nothing), none is an integer, and each starts with a lower-case
    letter: the revision suffix of the compact grammar cannot be taken
    for a part of the name. *)
Theorem valid_name_has_no_revision_suffix (name : string) :
  IsValidName name = true ->
  (forall n d, allBytes isDigit d = true -> name <> n ++ "-" ++ d)
  /\ strconv.Atoi name = None
  /\ exists c t, name = String c t /\ isLower c = true.
Proof.
  intros H. destruct (IsValidName_ends _ H) as [Hfirst Hends].
  destruct (IsValidName_facts _ H) as (_ & Ha & _). auto.
Qed.

(** X6. The loop of the compact grammar leaves a valid name whole, with
    revision -1, and reads [name-N] back as the name and [N] for every
    valid name and every non-negative [int] [N] as [%d] prints it. *)
Theorem compact_reads_name_and_revision (name : string) :
  IsValidName name = true ->
  splitRevision name (String.length name - 1) = Ok (name, (-1)%Z)
  /\ forall rev,
      (0 <= rev <= strconv.maxInt)%Z ->
      splitRevision (name ++ "-" ++ strconv.Itoa rev)
        (String.length (name ++ "-" ++ strconv.Itoa rev) - 1)
      = Ok (name, rev).
Proof.
  intros H. split; [now apply splitRevision_valid_name|].
  intros rev Hrev. destruct (Itoa_digits rev) as [Hd (c & t & E)]; [lia|].
  apply splitRevision_cut; auto using Atoi_Itoa.
  - destruct (IsValidName_facts _ H) as (_ & _ & Hne). exact Hne.
  - rewrite E. discriminate.
Qed.

(* ================================================================== *)
(** * Rendering with [Path] and parsing again *)

Lemma HasPrefix_app (s x : string) (c : byte) :
  s <> "" ->
  strings.HasPrefix (s ++ x) (String c EmptyString)
  = strings.HasPrefix s (String c EmptyString).
Proof.
  destruct s as [|a s]; [congruence|]. intros _. cbn.
  destruct (s ++ x); destruct s; reflexivity.
Qed.

Lemma HasPrefix_tilde (s : string) : strings.HasPrefix (String "~" s) "~" = true.
Proof. destruct s; reflexivity. Qed.

Lemma lower_not_tilde (c : byte) : isLower c = true -> Ascii.eqb c "~" = false.
Proof. bytes c; vm_compute; intros; try discriminate; reflexivity. Qed.

(** The last segment that [Path] renders, for a valid name and a
    revision that is -1 or a non-negative [int]: what the parsers make
    of it. *)
Lemma rendered_name (name : string) (rev : Z) :
  IsValidName name = true ->
  (-1 <= rev <= strconv.maxInt)%Z ->
  let nm := if (0 <=? rev)%Z then name ++ "-" ++ strconv.Itoa rev else name in
  plain nm = true
  /\ nm <> ""
  /\ strconv.Atoi nm = None
  /\ strings.HasPrefix nm "~" = false
  /\ IsValidName nm = (if (0 <=? rev)%Z then false else true)
  /\ splitRevision nm (String.length nm - 1) = Ok (name, rev).
Proof.
  intros Hname Hrev nm.
  destruct (IsValidName_facts _ Hname) as (Pname & Aname & Nname).
  destruct (IsValidName_ends _ Hname) as [(c & t & E & Hc) Hends].
  assert (Tname : strings.HasPrefix name "~" = false).
  { rewrite E. cbn. now rewrite (lower_not_tilde _ Hc). }
  unfold nm. destruct (0 <=? rev)%Z eqn:Er.
  - apply Z.leb_le in Er.
    destruct (Itoa_digits rev Er) as [Hd (c' & t' & E')].
    repeat apply conj.
    + unfold plain. rewrite !allBytes_app. fold (plain name). rewrite Pname.
      fold (plain (strconv.Itoa rev)). rewrite (Itoa_plain _ Er). reflexivity.
    + rewrite E. discriminate.
    + rewrite E. cbn [String.append].
      destruct (strconv.Atoi (String c (t ++ "-" ++ strconv.Itoa rev))) as [n|] eqn:A;
        auto.
      exfalso. apply Atoi_first in A. clear - Hc A.
      destruct A as [A | [A | A]]; [|subst c; discriminate | subst c; discriminate].
      revert Hc A. bytes c; vm_compute; congruence.
    + now rewrite HasPrefix_app.
    + destruct (IsValidName (name ++ "-" ++ strconv.Itoa rev)) eqn:V; auto.
      apply IsValidName_ends in V as [_ V]. now elim (V name _ Hd).
    + apply splitRevision_cut; auto.
      * rewrite E'. discriminate.
      * apply Atoi_Itoa. lia.
  - apply Z.leb_gt in Er. assert (rev = (-1)%Z) by lia. subst rev.
    repeat apply conj; auto. now apply splitRevision_valid_name.
Qed.

Section PathRoundTrip.

Variable SupportedSeries : list string.
Variable IsValidUser : string -> bool.

Local Abbreviation IsValidSeries := (IsValidSeries SupportedSeries).
Local Abbreviation ParseURL := (ParseURL SupportedSeries IsValidUser).

(** The vocabularies hold plain words; no series is an integer, and
    neither a series nor a user name starts with a tilde. *)
Hypothesis series_plain :
  forall s, In s SupportedSeries ->
            plain s = true /\ strconv.Atoi s = None /\ strings.HasPrefix s "~" = false.
Hypothesis user_plain :
  forall s, IsValidUser s = true -> plain s = true /\ strings.HasPrefix s "~" = false.

Lemma IsValidSeries_words (s : string) :
  IsValidSeries s = true ->
  plain s = true /\ strconv.Atoi s = None /\ strings.HasPrefix s "~" = false.
Proof.
  unfold charm.IsValidSeries, validSeries. cbn [existsb].
  intros H. apply orb_true_iff in H as [H | H].
  - apply String.eqb_eq in H. subst s. repeat split.
  - apply existsb_exists in H as [x [Hx E]]. apply String.eqb_eq in E. subst x.
    now apply series_plain.
Qed.

Lemma tilde_not_word (s : string) :
  IsValidSeries (String "~" s) = false
  /\ IsValidUser (String "~" s) = false
  /\ IsValidName (String "~" s) = false.
Proof.
  repeat apply conj.
  - destruct (IsValidSeries (String "~" s)) eqn:E; auto.
    apply IsValidSeries_words in E as (_ & _ & E).
    rewrite HasPrefix_tilde in E. discriminate.
  - destruct (IsValidUser (String "~" s)) eqn:E; auto.
    apply user_plain in E as (_ & E). rewrite HasPrefix_tilde in E. discriminate.
  - rewrite name_shape.IsValidName_nameShape. reflexivity.
Qed.

(** Parsing [schema:path] for the [Path] of a validated URL whose
    revision is not below -1 and which has no user if it is local. *)
Lemma ParseURL_Path (r : URL) :
  (Schema r = "cs" \/ Schema r = "local") ->
  validated SupportedSeries IsValidUser r ->
  (-1 <= Revision r)%Z ->
  (Schema r = "local" -> User r = "") ->
  ParseURL (Schema r ++ ":" ++ Path r) = Ok r.
Proof.
  destruct r as [schema user name rev series]. unfold validated.
  cbn [Schema User Name Revision Series].
  intros Hschema (_ & Huser & Hname & Hseries & Hrange) Hrev Hlocal.
  assert (Hok : schemaOK schema = true /\ String.eqb schema "" = false)
    by (destruct Hschema; subst; split; reflexivity).
  destruct Hok as [Hok Hnonempty].
  assert (Fuser : user = "" \/
                  (String.eqb user "" = false
                   /\ IsValidUser user = true /\ plain user = true
                   /\ String.eqb schema "local" = false)).
  { destruct (String.eqb user "") eqn:E; [apply String.eqb_eq in E; auto|].
    apply String.eqb_neq in E. right.
    destruct Huser as [|Hu]; [contradiction|].
    repeat apply conj; auto; [now apply user_plain|].
    apply String.eqb_neq. auto. }
  assert (Fseries : series = "" \/
                    (String.eqb series "" = false /\ IsValidSeries series = true
                     /\ plain series = true /\ strconv.Atoi series = None
                     /\ strings.HasPrefix series "~" = false /\ series <> "")).
  { destruct (String.eqb series "") eqn:E; [apply String.eqb_eq in E; auto|].
    right. destruct Hseries as [Hs|Hs]; [subst; discriminate|].
    destruct (IsValidSeries_words _ Hs) as (? & ? & ?).
    apply String.eqb_neq in E. auto 10. }
  pose proof (rendered_name name rev Hname (conj Hrev (proj2 Hrange)))
    as (Pnm & Nnm & Anm & Tnm & Vnm & Snm).
  destruct (tilde_not_word user) as (St & Ut & Nt).
  assert (Hminus : (0 <=? rev)%Z = false -> rev = (-1)%Z)
    by (intros E; apply Z.leb_gt in E; lia).
  clear Huser Hseries Hrange Hrev Hlocal.
  unfold Path. cbn [Schema User Name Revision Series].
  destruct (0 <=? rev)%Z eqn:Er;
    [remember (name ++ "-" ++ strconv.Itoa rev) as nm eqn:Enm; clear Enm
    |rewrite (Hminus eq_refl) in *];
    (destruct Fuser as [-> | (Eu & Vu & Pu & Lu)];
     destruct Fseries as [-> | (Es & Vs & Ps & As & Ts & Ns)];
     rewrite ?Eu, ?Es; cbn [String.eqb List.app String.append];
     match goal with
     | |- charm.ParseURL _ _ (schema ++ String ":" (strings.Join (?p :: ?ps) "/")) = _ =>
         destruct (Parse_rendered schema p ps Hschema) as (HP & HE & HS);
         [repeat constructor; try assumption; cbn; now rewrite ?Pu
         | first [assumption | discriminate] |];
         cbv zeta in HP, HE, HS;
         change (schema ++ String ":" (strings.Join (p :: ps) "/"))
           with (schema ++ ":" ++ strings.Join (p :: ps) "/");
         remember (strings.Join (p :: ps) "/") as rest eqn:Hrest; clear Hrest
     end;
     unfold charm.ParseURL, charm.dispatch; rewrite HP;
     cbn [gourl.RawQuery gourl.Fragment gourl.User gourl.Opaque gourl.Scheme
            String.eqb negb orb];
     rewrite HE; cbn [negb];
     unfold charm.parseNonWebURL, charm.parseV3URL, charm.parseV1URL, gourl.withPath;
     cbn [gourl.RawQuery gourl.Fragment gourl.User gourl.Opaque gourl.Scheme
            gourl.Path gourl.Host];
     rewrite !HS, !Hok;
     repeat (first
       [ progress cbn -[charm.IsValidSeries IsValidName strconv.Atoi strconv.Itoa
                          splitRevision strings.HasPrefix String.length]
       | rewrite HasPrefix_tilde | rewrite St | rewrite Ut | rewrite Nt
       | rewrite Anm | rewrite Tnm | rewrite Vnm | rewrite Snm | rewrite Hname
       | rewrite Vu | rewrite Lu | rewrite Eu
       | rewrite Vs | rewrite As | rewrite Ts | rewrite Hnonempty
       | match goal with
         | |- context [charm.IsValidSeries SupportedSeries ?x] =>
             destruct (charm.IsValidSeries SupportedSeries x) eqn:?
         | |- context [IsValidUser ?x] => destruct (IsValidUser x) eqn:?
         | |- context [IsValidName ?x] => destruct (IsValidName x) eqn:?
         end ]);
     try reflexivity).
Qed.

(** X7. With vocabularies of plain words, no series an integer and no
    word starting with a tilde: for every URL [r] that [ParseURL]
    returns, if the revision of [r] is not below -1 and [r] has no user
    when it is local, then parsing its schema, a colon and [r.Path()]
    returns [r].  The old-style form is read back even when the name or
    the user is itself a series. *)
Theorem Path_round_trip (raw : string) (r : URL) :
  ParseURL raw = Ok r ->
  (-1 <= Revision r)%Z ->
  (Schema r = "local" -> User r = "") ->
  ParseURL (Schema r ++ ":" ++ Path r) = Ok r.
Proof.
  intros H. apply ParseURL_validated in H as [Hschema Hvalid].
  now apply ParseURL_Path.
Qed.

(** X8. With vocabularies of plain words, no series an integer and no
    word starting with a tilde: replacing the revision of a URL that
    [ParseURL] returned, one without user if it is local, by -1 or by
    any non-negative [int] gives a URL that is read back from its
    schema, a colon and its [Path], and from its [String] when neither
    its user nor its name is a series. *)
Theorem WithRevision_round_trip (raw : string) (r : URL) (revision : Z) :
  ParseURL raw = Ok r ->
  (-1 <= revision <= strconv.maxInt)%Z ->
  (Schema r = "local" -> User r = "") ->
  ParseURL (Schema r ++ ":" ++ Path (WithRevision r revision))
  = Ok (WithRevision r revision)
  /\ ((User r = "" \/ IsValidSeries (User r) = false) ->
      IsValidSeries (Name r) = false ->
      ParseURL (String_ (WithRevision r revision)) = Ok (WithRevision r revision)).
Proof.
  intros H Hrev Hlocal.
  apply ParseURL_validated in H as [Hschema (Hs & Hu & Hn & Hser & _)].
  assert (V : validated SupportedSeries IsValidUser (WithRevision r revision)).
  { repeat apply conj; auto; cbn [WithRevision Revision];
      [pose proof minus1_int; lia | exact (proj2 Hrev)]. }
  split.
  - apply (ParseURL_Path (WithRevision r revision)); auto. exact (proj1 Hrev).
  - intros Huser Hname.
    apply (ParseURL_String SupportedSeries IsValidUser); auto.
    + intros s Hin. destruct (series_plain s Hin) as (P & A & _). auto.
    + intros s Hv. now destruct (user_plain s Hv).
    + exact (proj1 Hrev).
Qed.

End PathRoundTrip.

Lemma ubuntuSeries_words (s : string) :
  In s ubuntuSeries ->
  plain s = true /\ strconv.Atoi s = None /\ strings.HasPrefix s "~" = false.
Proof.
  intros H. simpl in H.
  repeat (destruct H as [<- | H]; [repeat split|]). contradiction.
Qed.

Lemma namesIsValidUser_words (s : string) :
  namesIsValidUser s = true -> plain s = true /\ strings.HasPrefix s "~" = false.
Proof.
  intros H. split; [now apply namesIsValidUser_plain|].
  apply regexp_facts.MatchString_lang in H.
  destruct s as [|c s]; [reflexivity|].
  pose proof (regexp_facts.lang_first _ _ H c s eq_refl) as Hc.
  cbn. replace (Ascii.eqb c "~") with false; [reflexivity|].
  clear - Hc. revert Hc. bytes c; vm_compute; congruence.
Qed.

Lemma Path_round_trip_witness :
  ParseURL ubuntuSeries namesIsValidUser "cs:~trusty/trusty/trusty-7"
  = Ok (mkURL "cs" "trusty" "trusty" 7 "trusty")
  /\ Path (mkURL "cs" "trusty" "trusty" 7 "trusty") = "~trusty/trusty/trusty-7"
  /\ ParseURL ubuntuSeries namesIsValidUser
       (Schema (mkURL "cs" "trusty" "trusty" 7 "trusty") ++ ":"
        ++ Path (mkURL "cs" "trusty" "trusty" 7 "trusty"))
     = Ok (mkURL "cs" "trusty" "trusty" 7 "trusty").
Proof.
  split; [reflexivity|]. split; [reflexivity|].
  apply (Path_round_trip ubuntuSeries namesIsValidUser ubuntuSeries_words
           namesIsValidUser_words "cs:~trusty/trusty/trusty-7").
  - reflexivity.
  - simpl. lia.
  - discriminate.
Defined.

(* ================================================================== *)
(** * What the parsers return, and how they fail *)

Section Results.

Variable SupportedSeries : list string.
Variable IsValidUser : string -> bool.

Local Abbreviation IsValidSeries := (IsValidSeries SupportedSeries).
Local Abbreviation parseV1URL := (parseV1URL SupportedSeries IsValidUser).
Local Abbreviation parseV2URL := (parseV2URL SupportedSeries IsValidUser).
Local Abbreviation parseV3URL := (parseV3URL SupportedSeries IsValidUser).
Local Abbreviation parseNonWebURL := (parseNonWebURL SupportedSeries IsValidUser).
Local Abbreviation dispatch := (dispatch SupportedSeries IsValidUser).
Local Abbreviation ParseURL := (ParseURL SupportedSeries IsValidUser).
Local Abbreviation InferURL := (InferURL SupportedSeries IsValidUser).

Lemma IsValidSeries_In (s : string) :
  IsValidSeries s = true -> s = "bundle" \/ In s SupportedSeries.
Proof.
  unfold charm.IsValidSeries, validSeries. cbn [existsb]. intros H.
  apply orb_true_iff in H as [H | H].
  - left. now apply String.eqb_eq.
  - right. apply existsb_exists in H as [x [Hx E]].
    apply String.eqb_eq in E. now subst.
Qed.

(** The schema that [ParseURL] settles on, after the switch. *)
Lemma dispatch_schema (u : gourl.URL) (raw : string) (curl : URL) :
  dispatch u raw = Ok curl ->
  Schema (if String.eqb (Schema curl) "" then withSchema curl "cs" else curl)
  = if String.eqb (gourl.Scheme u) "local" then "local" else "cs".
Proof.
  assert (N : forall url, parseNonWebURL url raw = Ok curl ->
                gourl.Scheme url = gourl.Scheme u ->
                Schema (if String.eqb (Schema curl) "" then withSchema curl "cs" else curl)
                = if String.eqb (gourl.Scheme u) "local" then "local" else "cs").
  { intros url H E. apply parseNonWebURL_validated in H as [H1 (H2 & _)].
    rewrite <- E, <- H1.
    destruct (schemaOK_cases IsValidUser _ H2) as [E' | [E' | E']];
      rewrite E'; cbn; rewrite ?E'; reflexivity. }
  unfold charm.dispatch.
  destruct (negb (String.eqb (gourl.Opaque u) "")); [intros H; now apply (N _ H)|].
  destruct (String.eqb (gourl.Scheme u) "http" || String.eqb (gourl.Scheme u) "https") eqn:E;
    [|intros H; now apply (N _ H)].
  intros H. apply parseV2URL_validated in H as [H1 _]. rewrite H1.
  apply orb_true_iff in E as [E | E]; apply String.eqb_eq in E; rewrite E; cbn;
    now rewrite H1.
Qed.

(** X9. Every URL that [ParseURL] returns has the schema ["local"] when
    the scheme of the input is [local] and ["cs"] otherwise, a valid
    name, a user that is empty or valid, a series that is empty,
    ["bundle"] or one of the supported series, and a revision that is an
    [int]. *)
Theorem ParseURL_result (raw : string) (r : URL) :
  ParseURL raw = Ok r ->
  (exists u, gourl.Parse raw = Some u
             /\ Schema r = if String.eqb (gourl.Scheme u) "local" then "local" else "cs")
  /\ IsValidName (Name r) = true
  /\ (User r = "" \/ IsValidUser (User r) = true)
  /\ (Series r = "" \/ Series r = "bundle" \/ In (Series r) SupportedSeries)
  /\ (strconv.minInt <= Revision r <= strconv.maxInt)%Z.
Proof.
  intros H.
  destruct (ParseURL_validated _ _ _ _ H) as [_ (_ & Hu & Hn & Hs & Hr)].
  split; [|split; [exact Hn|split; [exact Hu|split; [|exact Hr]]]].
  - unfold charm.ParseURL in H.
    destruct (gourl.Parse raw) as [u|]; [|discriminate].
    destruct (_ || _); [discriminate|].
    destruct (dispatch u raw) as [curl|e|] eqn:D; try discriminate.
    exists u. split; auto. inversion H; subst. now apply dispatch_schema in D.
  - destruct Hs as [Hs | Hs]; auto. right. now apply IsValidSeries_In.
Qed.

(** ** The [panic] of the compact grammar *)

Lemma splitRevision_no_error (name : string) (e : error) :
  forall i, splitRevision name i <> Err e.
Proof.
  induction i as [|i IH]; cbn [splitRevision]; [discriminate|].
  destruct (String.get (S i) name) as [c|]; [|discriminate].
  destruct (isDigit c); [exact IH|].
  destruct (_ && _); [|discriminate].
  destruct (strconv.Atoi _); discriminate.
Qed.

Lemma parseV1URL_panic (url : gourl.URL) (originalURL : string) :
  parseV1URL url originalURL = Panic ->
  splitRevision (nameSegment url) (String.length (nameSegment url) - 1) = Panic.
Proof.
  unfold charm.parseV1URL, nameSegment. cbv zeta.
  destruct (schemaOK (gourl.Scheme url)); [|discriminate].
  cbn [negb].
  pose proof (Split_nonempty (gourl.Path url) "/") as Hne.
  destruct (strings.Split (gourl.Path url) "/") as [|p0 [|p1 [|p2 [|p3 [|p4 parts]]]]];
    [congruence| | | | |];
    try (match goal with
         | |- context [(4 <? len (?a :: ?b :: ?c :: ?d :: ?e :: ?l))%Z] =>
             assert (L : (4 <? len (a :: b :: c :: d :: e :: l))%Z = true)
               by (apply Z.ltb_lt; unfold len; cbn [List.length]; lia);
             rewrite L, orb_true_r; discriminate
         end);
    (destruct (strings.HasPrefix (part (p0 :: _) 0) "~");
     [destruct (String.eqb (gourl.Scheme url) "local")|]);
    cbn -[IsValidName splitRevision strings.drop charm.IsValidSeries];
    try discriminate; intros H;
    repeat match type of H with
      | context [charm.IsValidSeries ?l ?p] =>
          destruct (charm.IsValidSeries l p); cbn [negb] in H; try discriminate
      | context [splitRevision ?p ?i] =>
          destruct (splitRevision p i) as [[? ?]|?|]; try discriminate
      | context [negb (String.eqb ?u "") && negb (IsValidUser ?u)] =>
          destruct (negb (String.eqb u "") && negb (IsValidUser u)); try discriminate
      | context [IsValidName ?n] =>
          destruct (IsValidName n); cbn [negb] in H; try discriminate
      end;
    reflexivity.
Qed.

Lemma parseV3URL_no_panic (url : gourl.URL) : parseV3URL url <> Panic.
Proof.
  unfold charm.parseV3URL. cbv zeta. intros H.
  repeat (match goal with
          | H' : context [match ?x with _ => _ end] |- _ => destruct x
          end; try discriminate).
Qed.

Lemma parseV2URL_no_panic (url : gourl.URL) : parseV2URL url <> Panic.
Proof.
  unfold charm.parseV2URL. cbv zeta. intros H.
  repeat (match goal with
          | H' : context [match ?x with _ => _ end] |- _ => destruct x eqn:?
          end; try discriminate).
Qed.

(** X10. The [panic(err)] of [parseV1URL] is reached from [ParseURL]
    only on an input that is not a web URL and whose last path segment
    ends in a hyphen and a non-empty run of digits that denotes a number
    above the largest [int]. *)
Theorem ParseURL_panic_is_overflow (raw : string) :
  ParseURL raw = Panic ->
  exists u n digits v,
    gourl.Parse raw = Some u
    /\ (gourl.Opaque u <> "" \/ (gourl.Scheme u <> "http" /\ gourl.Scheme u <> "https"))
    /\ nameSegment (if String.eqb (gourl.Opaque u) "" then u
                    else gourl.withPath u (gourl.Opaque u))
       = n ++ "-" ++ digits
    /\ digits <> "" /\ allBytes isDigit digits = true
    /\ strconv.parseDigits digits 0 = Some v /\ (strconv.maxInt < v)%Z.
Proof.
  unfold charm.ParseURL.
  destruct (gourl.Parse raw) as [u|]; [|discriminate].
  destruct (_ || _); [discriminate|].
  destruct (dispatch u raw) as [curl|e|] eqn:D; try discriminate. intros _.
  assert (N : forall url, parseNonWebURL url raw = Panic ->
                exists n digits v,
                  nameSegment url = n ++ "-" ++ digits
                  /\ digits <> "" /\ allBytes isDigit digits = true
                  /\ strconv.parseDigits digits 0 = Some v /\ (strconv.maxInt < v)%Z).
  { intros url H. apply splitRevision_panic, parseV1URL_panic with (originalURL := raw).
    unfold charm.parseNonWebURL in H.
    destruct (IsValidSeries _); [exact H|].
    destruct (parseV3URL url) eqn:H3; try discriminate; [exact H|].
    now elim (parseV3URL_no_panic url). }
  unfold charm.dispatch in D.
  destruct (String.eqb (gourl.Opaque u) "") eqn:O; cbn [negb] in D.
  - destruct (String.eqb (gourl.Scheme u) "http" || String.eqb (gourl.Scheme u) "https") eqn:W.
    + now elim (parseV2URL_no_panic u).
    + apply orb_false_iff in W as [W1 W2]. apply String.eqb_neq in W1, W2.
      destruct (N _ D) as (n & digits & v & H). exists u, n, digits, v.
      rewrite O. auto.
  - destruct (N _ D) as (n & digits & v & H). exists u, n, digits, v.
    rewrite O. apply String.eqb_neq in O. auto.
Qed.

(** ** The errors of [parseNonWebURL] *)

Lemma parseV1URL_errors (url : gourl.URL) (originalURL : string) (e : error) :
  parseV1URL url originalURL = Err e ->
  In e [InvalidSchema (Raw originalURL); InvalidForm (Raw originalURL);
        LocalURLWithUser originalURL; InvalidSeries (Raw originalURL);
        NoNameInURL originalURL; InvalidUserName (Raw originalURL);
        InvalidName (Raw originalURL)].
Proof.
  unfold charm.parseV1URL. cbv zeta. intros H.
  repeat (match goal with
          | H' : context [match ?x with _ => _ end] |- _ => destruct x eqn:?
          end; try discriminate);
    try (inversion H; subst; cbn [In]; tauto).
  all: exfalso; eapply splitRevision_no_error; eassumption.
Qed.

(** X11. An error of [parseNonWebURL] is always the error of the compact
    grammar, also when the slash grammar was tried first: it is one of
    seven messages and quotes the string that was handed to [ParseURL];
    the messages of the slash grammar are never reported. *)
Theorem parseNonWebURL_errors (url : gourl.URL) (originalURL : string) (e : error) :
  parseNonWebURL url originalURL = Err e ->
  parseV1URL url originalURL = Err e
  /\ In e [InvalidSchema (Raw originalURL); InvalidForm (Raw originalURL);
           LocalURLWithUser originalURL; InvalidSeries (Raw originalURL);
           NoNameInURL originalURL; InvalidUserName (Raw originalURL);
           InvalidName (Raw originalURL)].
Proof.
  intros H.
  assert (H1 : parseV1URL url originalURL = Err e).
  { unfold charm.parseNonWebURL in H.
    destruct (IsValidSeries _); [exact H|].
    destruct (parseV3URL url); [discriminate | exact H | exact H]. }
  split; [exact H1 | now apply parseV1URL_errors in H1].
Qed.

Lemma parseNonWebURL_schema (url : gourl.URL) (originalURL : string) :
  schemaOK (gourl.Scheme url) = false ->
  parseNonWebURL url originalURL = Err (InvalidSchema (Raw originalURL)).
Proof.
  intros H. unfold charm.parseNonWebURL, charm.parseV3URL, charm.parseV1URL.
  rewrite H. cbn [negb]. now destruct (IsValidSeries _).
Qed.

(** X12. An input without query, fragment and user information whose
    scheme is not empty, ["cs"] or ["local"] is rejected with the
    invalid-schema error that quotes the input, whatever its path is,
    unless it is an [http] or [https] URL with a rooted path; an opaque
    [http:] or [https:] reference is rejected in this way as well. *)
Theorem ParseURL_invalid_schema (raw : string) (u : gourl.URL) :
  gourl.Parse raw = Some u ->
  gourl.RawQuery u = "" /\ gourl.Fragment u = "" /\ gourl.User u = None ->
  schemaOK (gourl.Scheme u) = false ->
  gourl.Opaque u <> "" \/ (gourl.Scheme u <> "http" /\ gourl.Scheme u <> "https") ->
  ParseURL raw = Err (InvalidSchema (Raw raw)).
Proof.
  intros HP (HQ & HF & HU) Hschema Hshape.
  unfold charm.ParseURL, charm.dispatch. rewrite HP, HQ, HF, HU.
  cbn [String.eqb negb orb].
  destruct (String.eqb (gourl.Opaque u) "") eqn:HO; cbn [negb].
  - apply String.eqb_eq in HO. destruct Hshape as [Hshape | [H1 H2]]; [congruence|].
    apply String.eqb_neq in H1, H2. rewrite H1, H2. cbn [orb].
    now rewrite parseNonWebURL_schema.
  - now rewrite parseNonWebURL_schema.
Qed.

(** X13. A store or local URL of more than four segments is rejected
    with the invalid-form error, whatever the segments are. *)
Theorem ParseURL_too_many_segments (schema p : string) (ps : list string) :
  schema = "cs" \/ schema = "local" ->
  Forall (fun q => plain q = true) (p :: ps) ->
  p <> "" ->
  4 <= List.length ps ->
  ParseURL (schema ++ ":" ++ strings.Join (p :: ps) "/")
  = Err (InvalidForm (Raw (schema ++ ":" ++ strings.Join (p :: ps) "/"))).
Proof.
  intros Hschema Hplain Hp Hlen.
  destruct (Parse_rendered schema p ps Hschema Hplain Hp) as (HP & HE & HS).
  cbv zeta in HP, HE, HS.
  assert (Hok : schemaOK schema = true) by (destruct Hschema; subst; reflexivity).
  assert (L4 : (4 <? len (p :: ps))%Z = true)
    by (apply Z.ltb_lt; unfold len; cbn [List.length]; lia).
  assert (L1 : (len (p :: ps) <? 1)%Z = false)
    by (apply Z.ltb_ge; unfold len; cbn [List.length]; lia).
  unfold charm.ParseURL, charm.dispatch. rewrite HP.
  cbn [gourl.RawQuery gourl.Fragment gourl.User gourl.Opaque gourl.Scheme
         String.eqb negb orb].
  rewrite HE. cbn [negb].
  unfold charm.parseNonWebURL, charm.parseV3URL, charm.parseV1URL, gourl.withPath.
  cbn [gourl.RawQuery gourl.Fragment gourl.User gourl.Opaque gourl.Scheme
         gourl.Path gourl.Host].
  rewrite HS, Hok, L4, L1. cbn [negb orb].
  now destruct (IsValidSeries _).
Qed.

(** ** The web grammar *)

(** X14. The web grammar looks at the path only, and not at its leading
    and trailing slashes: two URLs whose trimmed paths are equal give the
    same charm URL, whatever their schemes and hosts are. *)
Theorem parseV2URL_path_only (u1 u2 : gourl.URL) :
  strings.Trim (gourl.Path u1) "/" = strings.Trim (gourl.Path u2) "/" ->
  forall r, parseV2URL u1 = Ok r <-> parseV2URL u2 = Ok r.
Proof.
  intros E r. unfold charm.parseV2URL. cbv zeta. rewrite E.
  set (parts := strings.Split (strings.Trim (gourl.Path u2) "/") "/").
  set (user := if String.eqb (part parts 0) "u" then part parts 1 else EmptyString).
  set (name := part (if String.eqb (part parts 0) "u" then skipn 2 parts else parts) 0).
  assert (F : forall revision series,
             (if negb (String.eqb user "") && negb (IsValidUser user)
              then Err (InvalidUserName (Parsed u1))
              else if negb (IsValidName name) then Err (InvalidName (Parsed u1))
                   else Ok (mkURL "cs" user name revision series)) = Ok r
             <-> (if negb (String.eqb user "") && negb (IsValidUser user)
                  then Err (InvalidUserName (Parsed u2))
                  else if negb (IsValidName name) then Err (InvalidName (Parsed u2))
                       else Ok (mkURL "cs" user name revision series)) = Ok r).
  { intros revision series.
    destruct (negb (String.eqb user "") && negb (IsValidUser user));
      [split; discriminate|].
    destruct (negb (IsValidName name)); [split; discriminate | reflexivity]. }
  destruct (String.eqb (part parts 0) "u" && (len parts <? 3)%Z);
    [split; discriminate|].
  destruct (tl _) as [|p0 parts']; [apply F|].
  destruct (strconv.Atoi p0); [apply F|].
  destruct (negb (IsValidSeries p0)); [split; discriminate|].
  destruct parts' as [|p1 [|p2 parts']]; [apply F| |split; discriminate].
  destruct (strconv.Atoi p1); [apply F|split; discriminate].
Qed.

(** ** [InferURL] *)

(** X15. A URL that [InferURL] returns has its series set; it is the URL
    that [ParseURL] returns, with the default series filled in when that
    one has none. *)
Theorem InferURL_resolved (src defaultSeries : string) (u : URL) :
  InferURL src defaultSeries = Ok u ->
  Series u <> ""
  /\ exists p, ParseURL src = Ok p
               /\ u = withSeries p (Series u)
               /\ (Series p <> "" -> u = p)
               /\ (Series p = "" -> Series u = defaultSeries).
Proof.
  unfold charm.InferURL.
  destruct (ParseURL src) as [p|e|]; try discriminate.
  destruct (String.eqb (Series p) "") eqn:E.
  - destruct (String.eqb defaultSeries "") eqn:D; [discriminate|].
    intros H; inversion H; subst; clear H.
    apply String.eqb_eq in E. apply String.eqb_neq in D.
    split; [exact D|]. exists p. repeat apply conj; auto. congruence.
  - intros H; inversion H; subst; clear H. apply String.eqb_neq in E.
    split; [exact E|]. exists u. repeat apply conj; auto; [|congruence].
    now destruct u.
Qed.

(** ** The segments that each grammar accounts for *)

Lemma HasPrefix_tilde_inv (s : string) :
  strings.HasPrefix s "~" = true -> s = "~" ++ strings.drop 1 s.
Proof.
  destruct s as [|a s]; [discriminate|]. cbn.
  destruct (Ascii.eqb a "~") eqn:E; [|discriminate].
  apply Ascii.eqb_eq in E. subst a. now destruct s.
Qed.

(** One of the optional segments of a path: absent, or present and
    checked. *)
Ltac segment :=
  solve [ left; repeat apply conj; (reflexivity || assumption)
        | right; repeat apply conj; (reflexivity || assumption)
        | right; eexists; split; [reflexivity | eassumption] ].

(** X16. When the compact grammar returns a URL, the path is made of an
    optional [~user] segment, which a local URL cannot have, an optional
    series, which is a valid one, and the name segment, in that order
    and with nothing else. *)
Theorem compact_grammar_segments (url : gourl.URL) (originalURL : string) (r : URL) :
  parseV1URL url originalURL = Ok r ->
  exists user series : list string,
    strings.Split (gourl.Path url) "/" = (user ++ series ++ [nameSegment url])%list
    /\ ((user = [] /\ User r = "")
        \/ (user = ["~" ++ User r] /\ Schema r <> "local"))
    /\ ((series = [] /\ Series r = "")
        \/ (series = [Series r] /\ IsValidSeries (Series r) = true)).
Proof.
  unfold charm.parseV1URL, nameSegment. cbv zeta.
  destruct (schemaOK (gourl.Scheme url)) eqn:Hschema; [|discriminate].
  cbn [negb].
  pose proof (Split_nonempty (gourl.Path url) "/") as Hne.
  destruct (strings.Split (gourl.Path url) "/") as [|p0 [|p1 [|p2 [|p3 [|p4 parts]]]]];
    [congruence| | | | |];
    try (match goal with
         | |- context [(4 <? len (?a :: ?b :: ?c :: ?d :: ?e :: ?l))%Z] =>
             assert (L : (4 <? len (a :: b :: c :: d :: e :: l))%Z = true)
               by (apply Z.ltb_lt; unfold len; cbn [List.length]; lia);
             rewrite L, orb_true_r; discriminate
         end);
    (destruct (strings.HasPrefix (part (p0 :: _) 0) "~") eqn:Htilde;
     [destruct (String.eqb (gourl.Scheme url) "local") eqn:Hlocal|]);
    cbn -[IsValidName splitRevision strings.drop charm.IsValidSeries] in *;
    try discriminate; intros H;
    repeat match type of H with
      | context [charm.IsValidSeries ?l ?p] =>
          destruct (charm.IsValidSeries l p) eqn:?; cbn [negb] in H; try discriminate
      | context [splitRevision ?p ?i] =>
          destruct (splitRevision p i) as [[? ?]|?|] eqn:?; try discriminate
      | context [negb (String.eqb ?u "") && negb (IsValidUser ?u)] =>
          destruct (negb (String.eqb u "") && negb (IsValidUser u)); try discriminate
      | context [IsValidName ?n] =>
          destruct (IsValidName n) eqn:?; cbn [negb] in H; try discriminate
      end;
    inversion H; subst; clear H; cbn [Schema User Series];
    try apply HasPrefix_tilde_inv in Htilde;
    try apply String.eqb_neq in Hlocal.
  all: first
    [ exists [], []; split; [reflexivity|]; solve [auto 6]
    | exists [], [p0]; split; [reflexivity|]; solve [auto 6]
    | exists [p0], []; split; [reflexivity|];
      split; [right; split; [f_equal; exact Htilde | exact Hlocal]|]; solve [auto]
    | exists [p0], [p1]; split; [reflexivity|];
      split; [right; split; [f_equal; exact Htilde | exact Hlocal]|]; solve [auto] ].
Qed.

(** X17. When the slash grammar returns a URL, the path is made of an
    optional user, the name, an optional series and an optional
    revision, in that order and with nothing else; the user and the
    series are valid ones, the revision segment is the integer that is
    returned, and a URL without a series has a name that is not a
    series. *)
Theorem slash_grammar_segments (url : gourl.URL) (r : URL) :
  parseV3URL url = Ok r ->
  exists user series revision : list string,
    strings.Split (gourl.Path url) "/" = (user ++ [Name r] ++ series ++ revision)%list
    /\ ((user = [] /\ User r = "")
        \/ (user = [User r] /\ IsValidUser (User r) = true))
    /\ ((series = [] /\ Series r = "" /\ IsValidSeries (Name r) = false)
        \/ (series = [Series r] /\ IsValidSeries (Series r) = true))
    /\ ((revision = [] /\ Revision r = (-1)%Z)
        \/ exists t, revision = [t] /\ strconv.Atoi t = Some (Revision r)).
Proof.
  unfold charm.parseV3URL. cbv zeta.
  destruct (schemaOK (gourl.Scheme url)) eqn:Hschema; [|discriminate].
  cbn [negb].
  pose proof (Split_nonempty (gourl.Path url) "/") as Hne.
  destruct (strings.Split (gourl.Path url) "/") as [|p0 [|p1 [|p2 [|p3 [|p4 parts]]]]];
    [congruence| | | | |];
    try (match goal with
         | |- context [(4 <? len (?a :: ?b :: ?c :: ?d :: ?e :: ?l))%Z] =>
             assert (L : (4 <? len (a :: b :: c :: d :: e :: l))%Z = true)
               by (apply Z.ltb_lt; unfold len; cbn [List.length]; lia);
             assert (L' : (len (a :: b :: c :: d :: e :: l) <? 1)%Z = false)
               by (apply Z.ltb_ge; unfold len; cbn [List.length]; lia);
             rewrite L, L'; discriminate
         end);
    cbn -[IsValidName strconv.Atoi charm.IsValidSeries];
    intros H;
    repeat (match type of H with
            | context [strconv.Atoi ?p] => destruct (strconv.Atoi p) eqn:?
            | context [charm.IsValidSeries ?l ?p] => destruct (charm.IsValidSeries l p) eqn:?
            | context [IsValidName ?p] => destruct (IsValidName p) eqn:?
            | context [IsValidUser ?p] => destruct (IsValidUser p) eqn:?
            end;
            cbn -[IsValidName strconv.Atoi charm.IsValidSeries] in H;
            try discriminate);
    inversion H; subst; clear H; cbn [User Name Series Revision].
  all: first
    [ exists [], [], []; split; [reflexivity|]; repeat apply conj; segment
    | eexists [], [], [_]; split; [reflexivity|]; repeat apply conj; segment
    | eexists [], [_], []; split; [reflexivity|]; repeat apply conj; segment
    | eexists [], [_], [_]; split; [reflexivity|]; repeat apply conj; segment
    | eexists [_], [], []; split; [reflexivity|]; repeat apply conj; segment
    | eexists [_], [], [_]; split; [reflexivity|]; repeat apply conj; segment
    | eexists [_], [_], []; split; [reflexivity|]; repeat apply conj; segment
    | eexists [_], [_], [_]; split; [reflexivity|]; repeat apply conj; segment ].
Qed.

(** X18. When the web grammar returns a URL, the trimmed path is made
    of an optional [u/<user>] prefix, the name, an optional series and
    an optional revision, in that order; the series is a valid one and
    not an integer, the revision segment is the integer that is
    returned, and without the prefix the name is not ["u"].  Segments
    are left over only after a revision that follows the name directly:
    those are not looked at. *)
Theorem web_grammar_segments (url : gourl.URL) (r : URL) :
  parseV2URL url = Ok r ->
  exists prefix series revision ignored : list string,
    strings.Split (strings.Trim (gourl.Path url) "/") "/"
    = (prefix ++ [Name r] ++ series ++ revision ++ ignored)%list
    /\ ((prefix = [] /\ User r = "" /\ Name r <> "u") \/ prefix = ["u"; User r])
    /\ ((series = [] /\ Series r = "")
        \/ (series = [Series r] /\ IsValidSeries (Series r) = true
            /\ strconv.Atoi (Series r) = None))
    /\ ((revision = [] /\ Revision r = (-1)%Z)
        \/ exists t, revision = [t] /\ strconv.Atoi t = Some (Revision r))
    /\ (ignored = [] \/ (series = [] /\ revision <> [])).
Proof.
  assert (T : forall user name parts,
             match
               match parts with
               | [] => Ok ((-1)%Z, EmptyString)
               | p0 :: parts' =>
                   match strconv.Atoi p0 with
                   | Some revision => Ok (revision, EmptyString)
                   | None =>
                       if negb (IsValidSeries p0) then Err (InvalidSeries (Parsed url)) else
                       match parts' with
                       | [p1] =>
                           match strconv.Atoi p1 with
                           | Some revision => Ok (revision, p0)
                           | None => Err (MalformedRevision p1 url)
                           end
                       | [] => Ok ((-1)%Z, p0)
                       | _ => Err (InvalidForm (Parsed url))
                       end
                   end
               end
             with
             | Panic => Panic
             | Err e => Err e
             | Ok (revision, series) =>
                 if negb (String.eqb user "") && negb (IsValidUser user)
                 then Err (InvalidUserName (Parsed url)) else
                 if negb (IsValidName name) then Err (InvalidName (Parsed url)) else
                 Ok (mkURL "cs" user name revision series)
             end = Ok r ->
             User r = user /\ Name r = name
             /\ exists series revision ignored : list string,
                 parts = (series ++ revision ++ ignored)%list
                 /\ ((series = [] /\ Series r = "")
                     \/ (series = [Series r] /\ IsValidSeries (Series r) = true
                         /\ strconv.Atoi (Series r) = None))
                 /\ ((revision = [] /\ Revision r = (-1)%Z)
                     \/ exists t, revision = [t] /\ strconv.Atoi t = Some (Revision r))
                 /\ (ignored = [] \/ (series = [] /\ revision <> []))).
  { intros user name parts H.
    destruct parts as [|p0 parts'].
    - destruct (_ && _); [discriminate|]. destruct (negb _); [discriminate|].
      inversion H; subst; clear H. cbn. repeat split.
      exists [], [], []. repeat apply conj; auto.
    - destruct (strconv.Atoi p0) as [rev|] eqn:A0.
      + destruct (_ && _); [discriminate|]. destruct (negb _); [discriminate|].
        inversion H; subst; clear H. cbn. repeat split.
        exists [], [p0], parts'. repeat apply conj; auto.
        * right. eauto.
        * right. split; [reflexivity | discriminate].
      + destruct (IsValidSeries p0) eqn:S0; cbn [negb] in H; [|discriminate].
        destruct parts' as [|p1 [|p2 parts']]; [| |discriminate].
        * destruct (_ && _); [discriminate|]. destruct (negb _); [discriminate|].
          inversion H; subst; clear H. cbn. repeat split.
          exists [p0], [], []. repeat apply conj; auto.
        * destruct (strconv.Atoi p1) as [rev|] eqn:A1; [|discriminate].
          destruct (_ && _); [discriminate|]. destruct (negb _); [discriminate|].
          inversion H; subst; clear H. cbn. repeat split.
          exists [p0], [p1], []. repeat apply conj; auto. right. eauto. }
  unfold charm.parseV2URL. cbv zeta.
  pose proof (Split_nonempty (strings.Trim (gourl.Path url) "/") "/") as Hne.
  destruct (strings.Split (strings.Trim (gourl.Path url) "/") "/") as [|p0 ps];
    [congruence|]. clear Hne.
  cbn [part Z.eqb].
  destruct (String.eqb p0 "u") eqn:Hu.
  - apply String.eqb_eq in Hu. subst p0.
    destruct ps as [|user [|name parts]]; [discriminate | discriminate |].
    assert (L : (len ("u" :: user :: name :: parts) <? 3)%Z = false)
      by (apply Z.ltb_ge; unfold len; cbn [List.length]; lia).
    rewrite L. cbn [andb skipn tl part Z.eqb Z.sub Z.add Z.pos_sub Z.opp].
    intros H. apply T in H as (HU & HN & series & revision & ignored & E & H).
    exists ["u"; user], series, revision, ignored.
    rewrite HU, HN, E. split; [reflexivity|]. split; [now right | exact H].
  - apply String.eqb_neq in Hu. cbn [andb tl part Z.eqb].
    intros H. apply T in H as (HU & HN & series & revision & ignored & E & H).
    exists [], series, revision, ignored.
    rewrite HU, HN, E. split; [reflexivity|]. split; [left; auto | exact H].
Qed.

(** ** The web grammar and the slash grammar on the shapes they share *)




End Results.

(* ================================================================== *)
(** * The names of the cached archives *)

Lemma append_inv_tail (t s1 : string) :
  forall s2, s1 ++ t = s2 ++ t -> s1 = s2.
Proof.
  induction s1 as [|a s1 IH]; intros [|b s2] H; cbn [String.append] in H.
  - reflexivity.
  - apply (f_equal String.length) in H. cbn [String.length] in H.
    rewrite length_app in H. lia.
  - apply (f_equal String.length) in H. cbn [String.length] in H.
    rewrite length_app in H. lia.
  - inversion H; subst. f_equal. now apply IH.
Qed.

Lemma ContainsByte_app (s t : string) (c : byte) :
  strings.ContainsByte (s ++ t) c = strings.ContainsByte s c || strings.ContainsByte t c.
Proof.
  induction s as [|a s IH]; [reflexivity|].
  cbn [String.append strings.ContainsByte]. rewrite IH. apply orb_assoc.
Qed.

Lemma Quote_no_slash (s : string) : strings.ContainsByte (Quote s) "/" = false.
Proof.
  pose proof (Quote_bytes s) as H.
  induction (Quote s) as [|b q IH]; [reflexivity|].
  cbn [allBytes] in H. apply andb_true_iff in H as [Hb Hq].
  cbn [strings.ContainsByte]. rewrite (IH Hq).
  clear - Hb. bytes b; vm_compute in Hb; try discriminate; reflexivity.
Qed.

Section Store.

Variable SupportedSeries : list string.
Variable IsValidUser : string -> bool.

Local Abbreviation IsValidSeries := (IsValidSeries SupportedSeries).
Local Abbreviation ParseURL := (ParseURL SupportedSeries IsValidUser).

(** The two vocabularies hold plain words, and no series is an integer. *)
Hypothesis series_plain :
  forall s, In s SupportedSeries -> plain s = true /\ strconv.Atoi s = None.
Hypothesis user_plain :
  forall s, IsValidUser s = true -> plain s = true.

Lemma Get_path_resolved (curl : URL) (rev : Z) (f : string) :
  store.Get_path curl rev = Some f ->
  f = Quote (String_ (WithRevision curl rev)) ++ ".charm".
Proof.
  unfold store.Get_path. destruct (Revision curl =? -1)%Z.
  - now intros [= <-].
  - destruct (Revision curl =? rev)%Z eqn:E; [|discriminate].
    apply Z.eqb_eq in E. subst rev. intros [= <-]. now destruct curl.
Qed.

(** X19. With vocabularies of plain words, none of them an integer:
    the file name that [Get] builds for a URL, once the store has
    reported a revision for it, has no path separator in it; and when
    [Get] builds the same file name for two URLs that [ParseURL]
    returned, neither user nor name a series, with reported revisions
    that are -1 or non-negative [int]s, then the two URLs with their
    reported revisions are the same URL: they differ at most in a
    revision that one of them leaves unset. *)
Theorem Get_path_determines_URL (raw1 raw2 : string) (u1 u2 : URL) (rev1 rev2 : Z)
    (f : string) :
  ParseURL raw1 = Ok u1 ->
  ParseURL raw2 = Ok u2 ->
  (-1 <= rev1 <= strconv.maxInt)%Z /\ (-1 <= rev2 <= strconv.maxInt)%Z ->
  (User u1 = "" \/ IsValidSeries (User u1) = false) /\ IsValidSeries (Name u1) = false ->
  (User u2 = "" \/ IsValidSeries (User u2) = false) /\ IsValidSeries (Name u2) = false ->
  store.Get_path u1 rev1 = Some f ->
  store.Get_path u2 rev2 = Some f ->
  strings.ContainsByte f "/" = false
  /\ WithRevision u1 rev1 = WithRevision u2 rev2.
Proof.
  intros H1 H2 [R1 R2] [U1 N1] [U2 N2] F1 F2.
  apply Get_path_resolved in F1, F2. split.
  - rewrite F1. now rewrite ContainsByte_app, Quote_no_slash.
  - rewrite F1 in F2. apply append_inv_tail, Quote_inj in F2.
    apply ParseURL_validated in H1 as [S1 (Hs1 & Hu1 & Hn1 & Hser1 & _)].
    apply ParseURL_validated in H2 as [S2 (Hs2 & Hu2 & Hn2 & Hser2 & _)].
    assert (V : forall u rev,
              schemaOK (Schema u) = true ->
              (User u = "" \/ IsValidUser (User u) = true) ->
              IsValidName (Name u) = true ->
              (Series u = "" \/ IsValidSeries (Series u) = true) ->
              (-1 <= rev <= strconv.maxInt)%Z ->
              validated SupportedSeries IsValidUser (WithRevision u rev)).
    { intros u rev Hs Hu Hn Hser Hrev. repeat apply conj; auto;
        cbn [WithRevision Revision]; [pose proof minus1_int; lia | exact (proj2 Hrev)]. }
    pose proof (ParseURL_String SupportedSeries IsValidUser series_plain user_plain
                  (WithRevision u1 rev1) S1 (V _ _ Hs1 Hu1 Hn1 Hser1 R1)
                  (proj1 R1) U1 N1) as P1.
    pose proof (ParseURL_String SupportedSeries IsValidUser series_plain user_plain
                  (WithRevision u2 rev2) S2 (V _ _ Hs2 Hu2 Hn2 Hser2 R2)
                  (proj1 R2) U2 N2) as P2.
    rewrite F2, P2 in P1. congruence.
Qed.

End Store.

(* ================================================================== *)
(** * References without a schema *)

Lemma name_byte (c : byte) :
  regexp.alphabet validName c = true ->
  Ascii.eqb c ":" = false
  /\ (isLower c || isUpper c = true
      \/ (isLower c || isUpper c = false /\ isDigit c || oneOf "+-." c = true)).
Proof. bytes c; vm_compute; intros; try discriminate; auto. Qed.

Lemma digit_name_byte (c : byte) :
  isDigit c = true -> regexp.alphabet validName c = true.
Proof. bytes c; vm_compute; intros; try discriminate; reflexivity. Qed.

Lemma lower_byte (c : byte) :
  isLower c = true -> Ascii.eqb c "*" = false /\ Ascii.eqb c "/" = false.
Proof. bytes c; vm_compute; intros; try discriminate; auto. Qed.

Lemma getSchemeAt_name (rawURL s : string) :
  allBytes (regexp.alphabet validName) s = true ->
  forall i, gourl.getSchemeAt i rawURL s = Some (EmptyString, rawURL).
Proof.
  induction s as [|c s IH]; intros H i; [reflexivity|].
  cbn [allBytes] in H. apply andb_true_iff in H as [Hc Hs].
  cbn [gourl.getSchemeAt].
  destruct (name_byte _ Hc) as [_ [E | [E1 E2]]].
  - rewrite E. now apply IH.
  - rewrite E1, E2. destruct i; [reflexivity | now apply IH].
Qed.

Lemma unescape_name (s : string) :
  allBytes (regexp.alphabet validName) s = true ->
  gourl.unescape s gourl.encodePath = Some s.
Proof.
  induction s as [|c s IH]; intros H; [reflexivity|].
  cbn [allBytes] in H. apply andb_true_iff in H as [Hc Hs].
  specialize (IH Hs). revert Hc.
  bytes c; vm_compute regexp.alphabet; intros Hc; try discriminate Hc;
    cbn [gourl.unescape gourl.isHostMode andb]; rewrite IH; reflexivity.
Qed.

Lemma no_colon (s : string) :
  allBytes (regexp.alphabet validName) s = true -> strings.ContainsByte s ":" = false.
Proof.
  induction s as [|c s IH]; intros H; [reflexivity|].
  cbn [allBytes] in H. apply andb_true_iff in H as [Hc Hs].
  cbn [strings.ContainsByte]. rewrite (IH Hs).
  now destruct (name_byte _ Hc) as [-> _].
Qed.

(** [url.Parse] on a string of name bytes that starts with a letter:
    there is no scheme, and the string is the path. *)
Lemma Parse_bare (s : string) :
  allBytes (regexp.alphabet validName) s = true ->
  (exists c t, s = String c t /\ isLower c = true) ->
  gourl.Parse s = Some (gourl.mkURL "" "" None "" s "" "").
Proof.
  intros Hbytes (c & t & E & Hc).
  assert (Hplain : plain s = true).
  { revert Hbytes. apply allBytes_impl, validName_bytes. }
  destruct (clean_facts _ (plain_clean _ Hplain)) as (Hhash & Hquery & Hctl).
  pose proof (plain_no_slash _ Hplain) as Hslash.
  pose proof (no_colon _ Hbytes) as Hcolon.
  destruct (lower_byte _ Hc) as [Hstar Hroot].
  assert (Hsuffix : strings.HasSuffixByte s "?" = false).
  { unfold strings.HasSuffixByte. destruct (strings.lastByte s) as [a|] eqn:L; auto.
    destruct (Ascii.eqb a "?") eqn:Ea; auto. apply Ascii.eqb_eq in Ea. subst a.
    now apply lastByte_none in L. }
  assert (Hnostar : String.eqb s "*" = false).
  { rewrite E. cbn. now rewrite Hstar. }
  assert (Hrooted : strings.HasPrefix s "/" = false).
  { rewrite E. cbn. now rewrite Hroot. }
  assert (Hauthority : strings.HasPrefix s "//" = false).
  { rewrite E. cbn. now rewrite Hroot. }
  unfold gourl.Parse. rewrite (Cut_none _ _ Hhash).
  unfold gourl.parse, gourl.getScheme.
  rewrite Hctl, Hnostar, (getSchemeAt_name _ _ Hbytes).
  cbn [strings.ToLower]. rewrite Hsuffix. cbn [andb].
  rewrite (Cut_none _ _ Hquery), Hrooted. cbn [negb String.eqb andb orb].
  rewrite (Cut_none _ _ Hslash). cbn [fst]. rewrite Hcolon, Hauthority.
  cbn [andb]. rewrite andb_false_r, (unescape_name _ Hbytes). reflexivity.
Qed.

Section Bare.

Variable SupportedSeries : list string.
Variable IsValidUser : string -> bool.

Local Abbreviation IsValidSeries := (IsValidSeries SupportedSeries).
Local Abbreviation ParseURL := (ParseURL SupportedSeries IsValidUser).

(** X20. A missing schema is assumed to be ["cs"]: a valid name alone is
    parsed as the store URL of that name, without user, series and
    revision, and the name followed by a hyphen and a non-negative
    [int] as that URL with that revision, whatever the vocabularies
    are, also when the name is itself a series. *)
Theorem ParseURL_bare_name (name : string) :
  IsValidName name = true ->
  ParseURL name = Ok (mkURL "cs" "" name (-1) "")
  /\ forall rev,
      (0 <= rev <= strconv.maxInt)%Z ->
      ParseURL (name ++ "-" ++ strconv.Itoa rev) = Ok (mkURL "cs" "" name rev "").
Proof.
  intros Hname.
  assert (Hbytes : allBytes (regexp.alphabet validName) name = true).
  { now apply regexp_facts.lang_alphabet, regexp_facts.MatchString_lang. }
  destruct (IsValidName_ends _ Hname) as [(c & t & E & Hc) _].
  assert (P : forall rev, (-1 <= rev <= strconv.maxInt)%Z ->
                ParseURL (if (0 <=? rev)%Z then name ++ "-" ++ strconv.Itoa rev else name)
                = Ok (mkURL "cs" "" name rev "")).
  { intros rev Hrev.
    destruct (rendered_name name rev Hname Hrev) as (Pn & Nn & An & Tn & Vn & Sn).
    cbv zeta in Pn, Nn, An, Tn, Vn, Sn.
    set (nm := if (0 <=? rev)%Z then name ++ "-" ++ strconv.Itoa rev else name) in *.
    assert (Hnm : gourl.Parse nm = Some (gourl.mkURL "" "" None "" nm "" "")).
    { apply Parse_bare.
      - unfold nm. destruct (0 <=? rev)%Z eqn:Er; [|exact Hbytes].
        apply Z.leb_le in Er. destruct (Itoa_digits rev Er) as [Hd _].
        rewrite !allBytes_app, Hbytes.
        rewrite (allBytes_impl _ _ _ digit_name_byte Hd). reflexivity.
      - unfold nm. rewrite E. destruct (0 <=? rev)%Z; cbn [String.append]; eauto. }
    assert (Vn' : IsValidName nm = true -> nm = name /\ rev = (-1)%Z).
    { rewrite Vn. unfold nm. destruct (0 <=? rev)%Z eqn:Er; [discriminate|].
      apply Z.leb_gt in Er. intros _. split; [reflexivity | lia]. }
    clearbody nm. clear Vn.
    unfold charm.ParseURL, charm.dispatch. rewrite Hnm.
    cbn [gourl.RawQuery gourl.Fragment gourl.User gourl.Opaque gourl.Scheme
           String.eqb negb orb Ascii.eqb Bool.eqb andb].
    unfold charm.parseNonWebURL, charm.parseV3URL, charm.parseV1URL.
    cbn [gourl.Scheme gourl.Path].
    rewrite (Split_one _ _ (plain_no_slash _ Pn)).
    change (schemaOK "") with true.
    destruct (IsValidName nm) eqn:V; [destruct (Vn' eq_refl) as [-> ->]|];
      repeat (first
        [ progress cbn -[charm.IsValidSeries IsValidName strconv.Atoi strconv.Itoa
                           splitRevision strings.HasPrefix String.length]
        | rewrite An | rewrite Tn | rewrite Sn | rewrite V | rewrite Hname
        | match goal with
          | |- context [charm.IsValidSeries SupportedSeries ?x] =>
              destruct (charm.IsValidSeries SupportedSeries x)
          end ]);
      reflexivity. }
  split.
  - apply (P (-1)%Z). split; [lia | exact (proj2 minus1_int)].
  - intros rev Hrev. specialize (P rev).
    replace (0 <=? rev)%Z with true in P by (symmetry; apply Z.leb_le; lia).
    apply P. lia.
Qed.

End Bare.

(* ================================================================== *)
(** * Examples of the further properties *)

Lemma valid_name_has_no_revision_suffix_witness :
  IsValidName "wordpress" = true
  /\ (forall n d, allBytes isDigit d = true -> "wordpress"%string <> n ++ "-" ++ d)
  /\ strconv.Atoi "wordpress" = None
  /\ exists c t, "wordpress"%string = String c t /\ isLower c = true.
Proof.
  split; [reflexivity|].
  apply (valid_name_has_no_revision_suffix "wordpress"). reflexivity.
Defined.

Lemma compact_reads_name_and_revision_witness :
  IsValidName "n0-n0" = true
  /\ splitRevision "n0-n0" (String.length "n0-n0" - 1) = Ok ("n0-n0"%string, (-1)%Z)
  /\ forall rev,
      (0 <= rev <= strconv.maxInt)%Z ->
      splitRevision ("n0-n0" ++ "-" ++ strconv.Itoa rev)
        (String.length ("n0-n0" ++ "-" ++ strconv.Itoa rev) - 1)
      = Ok ("n0-n0"%string, rev).
Proof.
  split; [reflexivity|].
  apply (compact_reads_name_and_revision "n0-n0"). reflexivity.
Defined.

Lemma ParseURL_result_witness :
  let r := mkURL "local" "" "foo" 3 "trusty" in
  ParseURL ubuntuSeries namesIsValidUser "local:trusty/foo-3" = Ok r
  /\ (exists u, gourl.Parse "local:trusty/foo-3" = Some u
                /\ Schema r = if String.eqb (gourl.Scheme u) "local" then "local" else "cs")
  /\ IsValidName (Name r) = true
  /\ (User r = "" \/ namesIsValidUser (User r) = true)
  /\ (Series r = "" \/ Series r = "bundle" \/ In (Series r) ubuntuSeries)
  /\ (strconv.minInt <= Revision r <= strconv.maxInt)%Z.
Proof.
  intros r. split; [reflexivity|].
  apply (ParseURL_result ubuntuSeries namesIsValidUser "local:trusty/foo-3" r).
  reflexivity.
Defined.

Lemma ParseURL_panic_is_overflow_witness :
  ParseURL ubuntuSeries namesIsValidUser "cs:trusty/foo-9223372036854775808" = Panic
  /\ exists u n digits v,
      gourl.Parse "cs:trusty/foo-9223372036854775808" = Some u
      /\ (gourl.Opaque u <> "" \/ (gourl.Scheme u <> "http" /\ gourl.Scheme u <> "https"))
      /\ nameSegment (if String.eqb (gourl.Opaque u) "" then u
                      else gourl.withPath u (gourl.Opaque u))
         = n ++ "-" ++ digits
      /\ digits <> "" /\ allBytes isDigit digits = true
      /\ strconv.parseDigits digits 0 = Some v /\ (strconv.maxInt < v)%Z.
Proof.
  split; [reflexivity|].
  apply (ParseURL_panic_is_overflow ubuntuSeries namesIsValidUser
           "cs:trusty/foo-9223372036854775808").
  reflexivity.
Defined.

Lemma parseNonWebURL_errors_witness :
  let url := gourl.mkURL "cs" "~user" None "" "~user" "" "" in
  let e := NoNameInURL "cs:~user" in
  parseV3URL ubuntuSeries namesIsValidUser url = Err (InvalidName (Parsed url))
  /\ parseNonWebURL ubuntuSeries namesIsValidUser url "cs:~user" = Err e
  /\ parseV1URL ubuntuSeries namesIsValidUser url "cs:~user" = Err e
  /\ In e [InvalidSchema (Raw "cs:~user"); InvalidForm (Raw "cs:~user");
           LocalURLWithUser "cs:~user"; InvalidSeries (Raw "cs:~user");
           NoNameInURL "cs:~user"; InvalidUserName (Raw "cs:~user");
           InvalidName (Raw "cs:~user")].
Proof.
  intros url e. do 2 (split; [reflexivity|]).
  apply (parseNonWebURL_errors ubuntuSeries namesIsValidUser url "cs:~user" e).
  reflexivity.
Defined.

Lemma ParseURL_invalid_schema_witness :
  let u := gourl.mkURL "http" "trusty/foo" None "" "" "" "" in
  gourl.Parse "http:trusty/foo" = Some u
  /\ ParseURL ubuntuSeries namesIsValidUser "http:trusty/foo"
     = Err (InvalidSchema (Raw "http:trusty/foo")).
Proof.
  intros u. split; [reflexivity|].
  apply (ParseURL_invalid_schema ubuntuSeries namesIsValidUser "http:trusty/foo" u).
  - reflexivity.
  - repeat split.
  - reflexivity.
  - left. discriminate.
Defined.

Lemma ParseURL_too_many_segments_witness :
  ParseURL ubuntuSeries namesIsValidUser
    ("cs" ++ ":" ++ strings.Join ["joe"; "foo"; "trusty"; "3"; "extra"] "/")
  = Err (InvalidForm
           (Raw ("cs" ++ ":" ++ strings.Join ["joe"; "foo"; "trusty"; "3"; "extra"] "/"))).
Proof.
  apply (ParseURL_too_many_segments ubuntuSeries namesIsValidUser
           "cs" "joe" ["foo"; "trusty"; "3"; "extra"]).
  - now left.
  - repeat constructor.
  - discriminate.
  - simpl. lia.
Defined.

Lemma parseV2URL_path_only_witness :
  let u1 := gourl.mkURL "https" "" None "jujucharms.com" "/u/alice/foo/trusty/3/" "" "" in
  let u2 := gourl.mkURL "http" "" None "example.org" "u/alice/foo/trusty/3" "" "" in
  let r := mkURL "cs" "alice" "foo" 3 "trusty" in
  strings.Trim (gourl.Path u1) "/" = strings.Trim (gourl.Path u2) "/"
  /\ parseV2URL ubuntuSeries namesIsValidUser u1 = Ok r
  /\ parseV2URL ubuntuSeries namesIsValidUser u2 = Ok r.
Proof.
  intros u1 u2 r. split; [reflexivity|]. split; [reflexivity|].
  apply (proj1 (parseV2URL_path_only ubuntuSeries namesIsValidUser u1 u2 eq_refl r)).
  reflexivity.
Defined.

Lemma InferURL_resolved_witness :
  let u := mkURL "cs" "" "foo" (-1) "trusty" in
  InferURL ubuntuSeries namesIsValidUser "foo" "trusty" = Ok u
  /\ Series u <> ""
  /\ exists p, ParseURL ubuntuSeries namesIsValidUser "foo" = Ok p
               /\ u = withSeries p (Series u)
               /\ (Series p <> "" -> u = p)
               /\ (Series p = "" -> Series u = "trusty").
Proof.
  intros u. split; [reflexivity|].
  apply (InferURL_resolved ubuntuSeries namesIsValidUser "foo" "trusty" u).
  reflexivity.
Defined.

Lemma compact_grammar_segments_witness :
  let url := gourl.mkURL "cs" "~joe/trusty/foo-3" None "" "~joe/trusty/foo-3" "" "" in
  let r := mkURL "cs" "joe" "foo" 3 "trusty" in
  parseV1URL ubuntuSeries namesIsValidUser url "cs:~joe/trusty/foo-3" = Ok r
  /\ exists user series : list string,
      strings.Split (gourl.Path url) "/" = (user ++ series ++ [nameSegment url])%list
      /\ ((user = [] /\ User r = "")
          \/ (user = ["~" ++ User r] /\ Schema r <> "local"))
      /\ ((series = [] /\ Series r = "")
          \/ (series = [Series r] /\ IsValidSeries ubuntuSeries (Series r) = true)).
Proof.
  intros url r. split; [reflexivity|].
  apply (compact_grammar_segments ubuntuSeries namesIsValidUser url "cs:~joe/trusty/foo-3" r).
  reflexivity.
Defined.

Lemma slash_grammar_segments_witness :
  let url := gourl.mkURL "cs" "joe/foo/trusty/3" None "" "joe/foo/trusty/3" "" "" in
  let r := mkURL "cs" "joe" "foo" 3 "trusty" in
  parseV3URL ubuntuSeries namesIsValidUser url = Ok r
  /\ exists user series revision : list string,
      strings.Split (gourl.Path url) "/" = (user ++ [Name r] ++ series ++ revision)%list
      /\ ((user = [] /\ User r = "")
          \/ (user = [User r] /\ namesIsValidUser (User r) = true))
      /\ ((series = [] /\ Series r = "" /\ IsValidSeries ubuntuSeries (Name r) = false)
          \/ (series = [Series r] /\ IsValidSeries ubuntuSeries (Series r) = true))
      /\ ((revision = [] /\ Revision r = (-1)%Z)
          \/ exists t, revision = [t] /\ strconv.Atoi t = Some (Revision r)).
Proof.
  intros url r. split; [reflexivity|].
  apply (slash_grammar_segments ubuntuSeries namesIsValidUser url r).
  reflexivity.
Defined.

Lemma web_grammar_segments_witness :
  let url := gourl.mkURL "https" "" None "jujucharms.com" "/foo/5/extra/stuff" "" "" in
  let r := mkURL "cs" "" "foo" 5 "" in
  parseV2URL ubuntuSeries namesIsValidUser url = Ok r
  /\ exists prefix series revision ignored : list string,
      strings.Split (strings.Trim (gourl.Path url) "/") "/"
      = (prefix ++ [Name r] ++ series ++ revision ++ ignored)%list
      /\ ((prefix = [] /\ User r = "" /\ Name r <> "u") \/ prefix = ["u"; User r])
      /\ ((series = [] /\ Series r = "")
          \/ (series = [Series r] /\ IsValidSeries ubuntuSeries (Series r) = true
              /\ strconv.Atoi (Series r) = None))
      /\ ((revision = [] /\ Revision r = (-1)%Z)
          \/ exists t, revision = [t] /\ strconv.Atoi t = Some (Revision r))
      /\ (ignored = [] \/ (series = [] /\ revision <> [])).
Proof.
  intros url r. split; [reflexivity|].
  apply (web_grammar_segments ubuntuSeries namesIsValidUser url r).
  reflexivity.
Defined.

Lemma WithRevision_round_trip_witness :
  let r := mkURL "cs" "user" "name" 3 "trusty" in
  ParseURL ubuntuSeries namesIsValidUser "cs:~user/trusty/name-3" = Ok r
  /\ ParseURL ubuntuSeries namesIsValidUser
       (Schema r ++ ":" ++ Path (WithRevision r (-1)))
     = Ok (WithRevision r (-1))
  /\ ((User r = "" \/ IsValidSeries ubuntuSeries (User r) = false) ->
      IsValidSeries ubuntuSeries (Name r) = false ->
      ParseURL ubuntuSeries namesIsValidUser (String_ (WithRevision r (-1)))
      = Ok (WithRevision r (-1))).
Proof.
  intros r. split; [reflexivity|].
  apply (WithRevision_round_trip ubuntuSeries namesIsValidUser ubuntuSeries_words
           namesIsValidUser_words "cs:~user/trusty/name-3" r (-1)%Z).
  - reflexivity.
  - pose proof minus1_int. lia.
  - discriminate.
Defined.

Lemma Get_path_determines_URL_witness :
  let u1 := mkURL "cs" "" "foo" (-1) "" in
  let u2 := mkURL "cs" "" "foo" 3 "" in
  ParseURL ubuntuSeries namesIsValidUser "cs:foo" = Ok u1
  /\ ParseURL ubuntuSeries namesIsValidUser "cs:foo/3" = Ok u2
  /\ store.Get_path u1 3 = Some "cs_3a_foo_2f_3.charm"%string
  /\ store.Get_path u2 3 = Some "cs_3a_foo_2f_3.charm"%string
  /\ store.Get_path u2 4 = None
  /\ strings.ContainsByte "cs_3a_foo_2f_3.charm" "/" = false
  /\ WithRevision u1 3 = WithRevision u2 3.
Proof.
  intros u1 u2. do 5 (split; [reflexivity|]).
  apply (Get_path_determines_URL ubuntuSeries namesIsValidUser ubuntuSeries_plain
           namesIsValidUser_plain "cs:foo" "cs:foo/3" u1 u2 3%Z 3%Z
           "cs_3a_foo_2f_3.charm").
  - reflexivity.
  - reflexivity.
  - split; split; vm_compute; discriminate.
  - split; [left|]; reflexivity.
  - split; [left|]; reflexivity.
  - reflexivity.
  - reflexivity.
Defined.

Lemma ParseURL_bare_name_witness :
  IsValidName "trusty" = true
  /\ IsValidSeries ubuntuSeries "trusty" = true
  /\ ParseURL ubuntuSeries namesIsValidUser "trusty" = Ok (mkURL "cs" "" "trusty" (-1) "")
  /\ forall rev,
      (0 <= rev <= strconv.maxInt)%Z ->
      ParseURL ubuntuSeries namesIsValidUser ("trusty" ++ "-" ++ strconv.Itoa rev)
      = Ok (mkURL "cs" "" "trusty" rev "").
Proof.
  do 2 (split; [reflexivity|]).
  apply (ParseURL_bare_name ubuntuSeries namesIsValidUser "trusty"). reflexivity.
Defined.

